(** * The frontmatter parser of [validate-skill.js]

    A shallow embedding of [parseFrontmatter] and [parseYamlBlock]
    (validate-skill.js, lines 33-94) together with the parts of the
    JavaScript run time the two functions rely on: strings as sequences of
    UTF-16 code units, the three regular expressions of the parser, ordinary
    objects with their [__proto__] accessor, and [JSON.parse].  With them
    come the checks of [validate] that are tests on strings (the name, the
    version and the body, lines 132, 157 and 313) and the quoting of the
    request body in [makeRequest] (cli.js, lines 69-75). *)

From Stdlib Require Import String Ascii NArith ZArith Bool Lia List.
Import ListNotations.

Set Warnings "-register-all,-abstract-large-number".

(* ================================================================== *)
(** ** JavaScript strings *)
(* ================================================================== *)

Module JsString.

Local Open Scope N_scope.

(** A JavaScript string is a sequence of 16-bit code units. *)
Definition char := N.
Definition jsstring := list char.

(** Literals.  [jstr] reads a Rocq string and understands the escapes
    backslash-n, backslash-r, backslash-t and backslash-q (a double quote). *)
Definition unescape (c : ascii) : char :=
  match c with
  | "n"%char => 10%N
  | "r"%char => 13%N
  | "t"%char => 9%N
  | "q"%char => 34%N
  | _ => N_of_ascii c
  end.

Fixpoint jstr (s : string) : jsstring :=
  match s with
  | EmptyString => []
  | String "\"%char (String c r) => unescape c :: jstr r
  | String c r => N_of_ascii c :: jstr r
  end.

Fixpoint str_eqb (a b : jsstring) : bool :=
  match a, b with
  | [], [] => true
  | x :: a', y :: b' => N.eqb x y && str_eqb a' b'
  | _, _ => false
  end.

(** Code units with a name in the source. *)
Definition LF : char := 10%N.
Definition CR : char := 13%N.
Definition SPACE : char := 32%N.
Definition QUOTE : char := 34%N.
Definition HASH : char := 35%N.
Definition APOS : char := 39%N.
Definition DASH : char := 45%N.
Definition DOT : char := 46%N.
Definition COLON : char := 58%N.

Definition between (lo hi c : char) : bool := N.leb lo c && N.leb c hi.

(** The class [\s] of a regular expression, which is also the set of code
    units [String.prototype.trim] removes: WhiteSpace and LineTerminator
    of ECMAScript. *)
Definition isWhiteSpace (c : char) : bool :=
  between 9 13 c || N.eqb c 32 || N.eqb c 160 || N.eqb c 5760
  || between 8192 8202 c || N.eqb c 8232 || N.eqb c 8233
  || N.eqb c 8239 || N.eqb c 8287 || N.eqb c 12288 || N.eqb c 65279.

(** The code units [.] does not match. *)
Definition isLineTerminator (c : char) : bool :=
  N.eqb c 10 || N.eqb c 13 || N.eqb c 8232 || N.eqb c 8233.

(** The class [\w]. *)
Definition isWordChar (c : char) : bool :=
  between 97 122 c || between 65 90 c || between 48 57 c || N.eqb c 95.

(** The class [[\w.-]] of the key pattern. *)
Definition isKeyChar (c : char) : bool :=
  isWordChar c || N.eqb c DOT || N.eqb c DASH.

Fixpoint takeWhile (p : char -> bool) (s : jsstring) : jsstring :=
  match s with
  | c :: r => if p c then c :: takeWhile p r else []
  | [] => []
  end.

Fixpoint dropWhile (p : char -> bool) (s : jsstring) : jsstring :=
  match s with
  | c :: r => if p c then dropWhile p r else s
  | [] => []
  end.

Definition trimStart (s : jsstring) : jsstring := dropWhile isWhiteSpace s.
Definition trimEnd (s : jsstring) : jsstring :=
  rev (dropWhile isWhiteSpace (rev s)).
Definition trim (s : jsstring) : jsstring := trimEnd (trimStart s).

Fixpoint startsWith (p s : jsstring) : bool :=
  match p, s with
  | [], _ => true
  | x :: p', y :: s' => N.eqb x y && startsWith p' s'
  | _ :: _, [] => false
  end.

Definition endsWith (p s : jsstring) : bool := startsWith (rev p) (rev s).

(** [s.slice(from, to)] with the relative indices of the language. *)
Definition sliceIndex (len k : Z) : Z :=
  if (k <? 0)%Z then Z.max (len + k) 0 else Z.min k len.

Definition slice (from to : Z) (s : jsstring) : jsstring :=
  let len := Z.of_nat (length s) in
  let a := sliceIndex len from in
  let b := sliceIndex len to in
  firstn (Z.to_nat (b - a)) (skipn (Z.to_nat a) s).

(** [s.split('\n')]: never empty, the pieces hold no line feed. *)
Fixpoint split_nl (s : jsstring) : list jsstring :=
  match s with
  | [] => [[]]
  | c :: r =>
      if N.eqb c LF then [] :: split_nl r
      else match split_nl r with
           | h :: t => (c :: h) :: t
           | [] => [[c]]
           end
  end.

(** [a.join('\n')]. *)
Fixpoint join_nl (a : list jsstring) : jsstring :=
  match a with
  | [] => []
  | [x] => x
  | x :: r => x ++ LF :: join_nl r
  end.

(** [s.search(/\S/)]: the index of the first code unit that is not white
    space, [-1] when there is none. *)
Fixpoint search_nonspace (s : jsstring) : Z :=
  match s with
  | [] => (-1)%Z
  | c :: r =>
      if isWhiteSpace c then
        (let k := search_nonspace r in if (k <? 0)%Z then (-1) else k + 1)%Z
      else 0%Z
  end.

End JsString.
Import JsString.

(* ================================================================== *)
(** ** JavaScript values and ordinary objects *)
(* ================================================================== *)

Module JsValue.

(** The values the parser handles.  A number is kept as the literal it
    was read from.  An object is its own properties in insertion order
    and its prototype slot: [None] is the built-in [Object.prototype],
    [Some VNull] is [null], [Some v] an object installed through
    [__proto__]. *)
Inductive value : Type :=
| VStr (s : jsstring)
| VBool (b : bool)
| VNum (lexeme : jsstring)
| VNull
| VArr (items : list value)
| VObj (props : list (jsstring * value)) (proto : option value).

Definition emptyObject : value := VObj [] None.

Inductive jstype : Type := TString | TBoolean | TNumber | TObject | TUndefined.

Definition jstype_eqb (a b : jstype) : bool :=
  match a, b with
  | TString, TString | TBoolean, TBoolean | TNumber, TNumber
  | TObject, TObject | TUndefined, TUndefined => true
  | _, _ => false
  end.

(** What reading a property gives: a value, [undefined], or the built-in
    [Object.prototype] (through the [__proto__] getter). *)
Inductive slot : Type :=
| Got (v : value)
| Undefined
| ObjectPrototype.

Definition typeof_value (v : value) : jstype :=
  match v with
  | VStr _ => TString
  | VBool _ => TBoolean
  | VNum _ => TNumber
  | VNull | VArr _ | VObj _ _ => TObject
  end.

Definition typeof (s : slot) : jstype :=
  match s with
  | Got v => typeof_value v
  | Undefined => TUndefined
  | ObjectPrototype => TObject
  end.

Definition isArray (s : slot) : bool :=
  match s with
  | Got (VArr _) => true
  | _ => false
  end.

Definition PROTO : jsstring := jstr "__proto__".

(** Own properties. *)
Fixpoint assoc (k : jsstring) (props : list (jsstring * value)) : option value :=
  match props with
  | [] => None
  | (k', v) :: r => if str_eqb k k' then Some v else assoc k r
  end.

(** Defining an own data property: an existing key keeps its place and
    takes the new value, a new key goes last. *)
Fixpoint put (k : jsstring) (v : value) (props : list (jsstring * value))
  : list (jsstring * value) :=
  match props with
  | [] => [(k, v)]
  | (k', v') :: r => if str_eqb k k' then (k', v) :: r else (k', v') :: put k v r
  end.

(** Whether the accessor [Object.prototype.__proto__] is what a lookup of
    [__proto__] finds when it starts at the prototype [p]: no object on
    the way has an own property of that name, and the chain does not end
    in [null]. *)
Fixpoint accessor_from (p : value) : bool :=
  match p with
  | VObj props proto =>
      match assoc PROTO props with
      | Some _ => false
      | None => match proto with
                | None => true
                | Some q => accessor_from q
                end
      end
  | VArr _ => true
  | _ => false
  end.

Definition accessor_visible (proto : option value) : bool :=
  match proto with
  | None => true
  | Some p => accessor_from p
  end.

Definition isObjectOrNull (v : value) : bool :=
  match v with
  | VNull | VArr _ | VObj _ _ => true
  | _ => false
  end.

(** [o[k] = v] on an ordinary object.  Every inherited data property is
    writable, so the assignment defines an own property, unless it
    reaches the [__proto__] setter, which replaces the prototype when [v]
    is an object or [null] and does nothing otherwise. *)
Definition ob_set (o : value) (k : jsstring) (v : value) : value :=
  match o with
  | VObj props proto =>
      match assoc k props with
      | Some _ => VObj (put k v props) proto
      | None =>
          if str_eqb k PROTO && accessor_visible proto then
            if isObjectOrNull v then VObj props (Some v) else o
          else VObj (put k v props) proto
      end
  | _ => o
  end.

(** A data property of name [k] on the objects of a prototype chain.
    The members of the built-in prototypes and the elements of an array
    on the chain are left out: the parser reads a key only directly
    after assigning to it. *)
Fixpoint chain_get (k : jsstring) (p : value) : option value :=
  match p with
  | VObj props proto =>
      match assoc k props with
      | Some v => Some v
      | None => match proto with
                | Some q => chain_get k q
                | None => None
                end
      end
  | _ => None
  end.

(** [o[k]]. *)
Definition ob_get (o : value) (k : jsstring) : slot :=
  match o with
  | VObj props proto =>
      match assoc k props with
      | Some v => Got v
      | None =>
          match (match proto with Some p => chain_get k p | None => None end) with
          | Some v => Got v
          | None =>
              if str_eqb k PROTO && accessor_visible proto then
                match proto with
                | Some p => Got p
                | None => ObjectPrototype
                end
              else Undefined
          end
      end
  | _ => Undefined
  end.

End JsValue.
Import JsValue.

(* ================================================================== *)
(** ** [JSON.parse] *)
(* ================================================================== *)

Module Json.

Local Open Scope N_scope.

(** The outcome of a grammar function: a value and the text left, a
    [SyntaxError], or the recursion bound reached (which [JSON_parse]
    below never lets happen, see [jvalue_fuel]). *)
Inductive jres (A : Type) : Type :=
| JOk (a : A) (rest : jsstring)
| JSyntaxError
| JOutOfFuel.
Arguments JOk {A} a rest.
Arguments JSyntaxError {A}.
Arguments JOutOfFuel {A}.

(** JSON white space: tab, line feed, carriage return, space. *)
Definition isJsonWs (c : char) : bool :=
  N.eqb c 9 || N.eqb c 10 || N.eqb c 13 || N.eqb c 32.

Definition skip_ws (s : jsstring) : jsstring := dropWhile isJsonWs s.

Definition isDigit (c : char) : bool := between 48 57 c.

Definition hexval (c : char) : option N :=
  if between 48 57 c then Some (c - 48)
  else if between 97 102 c then Some (c - 87)
  else if between 65 70 c then Some (c - 55)
  else None.

Definition hex4 (a b c d : char) : option char :=
  match hexval a, hexval b, hexval c, hexval d with
  | Some x, Some y, Some z, Some w => Some (((x * 16 + y) * 16 + z) * 16 + w)
  | _, _, _, _ => None
  end.

(** The single-character escapes of a JSON string. *)
Definition escape (c : char) : option char :=
  if N.eqb c 34 then Some 34          (* quote *)
  else if N.eqb c 92 then Some 92     (* backslash *)
  else if N.eqb c 47 then Some 47     (* slash *)
  else if N.eqb c 98 then Some 8      (* b: backspace *)
  else if N.eqb c 102 then Some 12    (* f: form feed *)
  else if N.eqb c 110 then Some 10    (* n: line feed *)
  else if N.eqb c 114 then Some 13    (* r: carriage return *)
  else if N.eqb c 116 then Some 9     (* t: tab *)
  else None.

(** The characters of a string literal after its opening quote, up to
    and including the closing one. *)
Fixpoint jchars (s : jsstring) : option (jsstring * jsstring) :=
  match s with
  | [] => None
  | c :: r =>
      if N.eqb c 34 then Some ([], r)
      else if N.eqb c 92 then
        match r with
        | [] => None
        | e :: r1 =>
            if N.eqb e 117 then
              match r1 with
              | h1 :: h2 :: h3 :: h4 :: r2 =>
                  match hex4 h1 h2 h3 h4, jchars r2 with
                  | Some u, Some (t, rest) => Some (u :: t, rest)
                  | _, _ => None
                  end
              | _ => None
              end
            else
              match escape e, jchars r1 with
              | Some u, Some (t, rest) => Some (u :: t, rest)
              | _, _ => None
              end
        end
      else if N.ltb c 32 then None
      else match jchars r with
           | Some (t, rest) => Some (c :: t, rest)
           | None => None
           end
  end.

(** A number literal: an optional minus sign, an integer part (a single
    zero, or a digit from one to nine and further digits), an optional
    fraction (a dot and at least one digit) and an optional exponent (e
    or E, an optional sign and at least one digit). *)
Definition jint (s : jsstring) : option (jsstring * jsstring) :=
  match s with
  | c :: r =>
      if N.eqb c 48 then Some ([c], r)
      else if isDigit c then Some (c :: takeWhile isDigit r, dropWhile isDigit r)
      else None
  | [] => None
  end.

Definition jdigits1 (s : jsstring) : option (jsstring * jsstring) :=
  match takeWhile isDigit s with
  | [] => None
  | d => Some (d, dropWhile isDigit s)
  end.

Definition jfrac (s : jsstring) : option (jsstring * jsstring) :=
  match s with
  | c :: r =>
      if N.eqb c 46 then
        match jdigits1 r with
        | Some (d, rest) => Some (c :: d, rest)
        | None => None
        end
      else Some ([], s)
  | [] => Some ([], s)
  end.

Definition jexp (s : jsstring) : option (jsstring * jsstring) :=
  match s with
  | c :: r =>
      if N.eqb c 101 || N.eqb c 69 then
        match r with
        | g :: r1 =>
            if N.eqb g 43 || N.eqb g 45 then
              match jdigits1 r1 with
              | Some (d, rest) => Some (c :: g :: d, rest)
              | None => None
              end
            else
              match jdigits1 r with
              | Some (d, rest) => Some (c :: d, rest)
              | None => None
              end
        | [] => None
        end
      else Some ([], s)
  | [] => Some ([], s)
  end.

Definition jnumber (s : jsstring) : option (jsstring * jsstring) :=
  let '(sign, s0) :=
    match s with
    | c :: r => if N.eqb c 45 then ([c], r) else ([], s)
    | [] => ([], s)
    end in
  match jint s0 with
  | None => None
  | Some (i, s1) =>
      match jfrac s1 with
      | None => None
      | Some (f, s2) =>
          match jexp s2 with
          | None => None
          | Some (e, s3) => Some (sign ++ i ++ f ++ e, s3)
          end
      end
  end.

(** The value grammar.  [jelements] and [jmembers] read what follows the
    first element or member position of an array or object that is not
    empty. *)
Fixpoint jvalue (fuel : nat) (s : jsstring) : jres value :=
  match fuel with
  | O => JOutOfFuel
  | S f =>
      match skip_ws s with
      | [] => JSyntaxError
      | c :: r =>
          if N.eqb c 123 then                       (* { *)
            match skip_ws r with
            | c' :: r' =>
                if N.eqb c' 125 then JOk emptyObject r'
                else jmembers f r []
            | [] => JSyntaxError
            end
          else if N.eqb c 91 then                   (* [ *)
            match skip_ws r with
            | c' :: r' =>
                if N.eqb c' 93 then JOk (VArr []) r'
                else jelements f r []
            | [] => JSyntaxError
            end
          else if N.eqb c 34 then
            match jchars r with
            | Some (t, rest) => JOk (VStr t) rest
            | None => JSyntaxError
            end
          else if startsWith (jstr "true") (c :: r) then
            JOk (VBool true) (skipn 4 (c :: r))
          else if startsWith (jstr "false") (c :: r) then
            JOk (VBool false) (skipn 5 (c :: r))
          else if startsWith (jstr "null") (c :: r) then
            JOk VNull (skipn 4 (c :: r))
          else
            match jnumber (c :: r) with
            | Some (n, rest) => JOk (VNum n) rest
            | None => JSyntaxError
            end
      end
  end

with jelements (fuel : nat) (s : jsstring) (acc : list value) : jres value :=
  match fuel with
  | O => JOutOfFuel
  | S f =>
      match jvalue f s with
      | JOk v r =>
          match skip_ws r with
          | c :: r' =>
              if N.eqb c 44 then jelements f r' (acc ++ [v])
              else if N.eqb c 93 then JOk (VArr (acc ++ [v])) r'
              else JSyntaxError
          | [] => JSyntaxError
          end
      | JSyntaxError => JSyntaxError
      | JOutOfFuel => JOutOfFuel
      end
  end

with jmembers (fuel : nat) (s : jsstring) (props : list (jsstring * value))
  : jres value :=
  match fuel with
  | O => JOutOfFuel
  | S f =>
      match skip_ws s with
      | c :: r =>
          if N.eqb c 34 then
            match jchars r with
            | Some (k, r1) =>
                match skip_ws r1 with
                | c1 :: r2 =>
                    if N.eqb c1 58 then
                      match jvalue f r2 with
                      | JOk v r3 =>
                          match skip_ws r3 with
                          | c3 :: r4 =>
                              if N.eqb c3 44 then jmembers f r4 (put k v props)
                              else if N.eqb c3 125 then JOk (VObj (put k v props) None) r4
                              else JSyntaxError
                          | [] => JSyntaxError
                          end
                      | JSyntaxError => JSyntaxError
                      | JOutOfFuel => JOutOfFuel
                      end
                    else JSyntaxError
                | [] => JSyntaxError
                end
            | None => JSyntaxError
            end
          else JSyntaxError
      | [] => JSyntaxError
      end
  end.

(** [JSON.parse(text)]: [None] is the [SyntaxError] it throws. *)
Definition JSON_parse (text : jsstring) : option value :=
  match jvalue (2 * length text + 2) text with
  | JOk v rest =>
      match skip_ws rest with
      | [] => Some v
      | _ :: _ => None
      end
  | _ => None
  end.

End Json.
Import Json.

(* ================================================================== *)
(** ** The regular expressions of the parser *)
(* ================================================================== *)

Module Re.

Local Open Scope N_scope.

(** [/^\s*$/.test(line)] *)
Definition isBlank (line : jsstring) : bool := forallb isWhiteSpace line.

(** [/^\s*#/.test(line)] *)
Definition isComment (line : jsstring) : bool :=
  match trimStart line with
  | c :: _ => N.eqb c HASH
  | [] => false
  end.

Definition notLineTerminator (c : char) : bool := negb (isLineTerminator c).

(** The key-value pattern of line 50, as its three groups: from the
    start of the line, group 1 is [\s*], group 2 is [[\w.-]+], then come
    [\s*:\s*], and group 3 is [.*].
    The classes [\s] and [[\w.-]] are disjoint and neither holds the
    colon, so a greedy quantifier of the pattern has nothing to gain
    from giving back what it took: the match, when there is one, is the
    one with the longest runs. *)
Definition kvMatch (line : jsstring) : option (jsstring * jsstring * jsstring) :=
  let g1 := takeWhile isWhiteSpace line in
  let r0 := dropWhile isWhiteSpace line in
  match takeWhile isKeyChar r0 with
  | [] => None
  | key =>
      match dropWhile isWhiteSpace (dropWhile isKeyChar r0) with
      | c :: r1 =>
          if N.eqb c COLON then
            Some (g1, key, takeWhile notLineTerminator (dropWhile isWhiteSpace r1))
          else None
      | [] => None
      end
  end.

(** [s.replace(/^-\s*/, '')] *)
Definition stripDash (s : jsstring) : jsstring :=
  match s with
  | c :: r => if N.eqb c DASH then trimStart r else s
  | [] => s
  end.

(** The closing part [\r?\n---] of the frontmatter pattern, tried at the
    start of [s]. *)
Definition closesAt (s : jsstring) : bool :=
  startsWith [CR; LF; DASH; DASH; DASH] s || startsWith [LF; DASH; DASH; DASH] s.

(** The lazy group of any characters followed by the closing part: the
    shortest prefix of [s] after which the closing part matches. *)
Fixpoint lazyUntilClose (s : jsstring) : option jsstring :=
  if closesAt s then Some []
  else match s with
       | [] => None
       | c :: r => match lazyUntilClose r with
                   | Some g => Some (c :: g)
                   | None => None
                   end
       end.

(** The pattern of line 34, as its group 1: [---\r?\n] at the start of
    the content, the lazy group, and the closing part. *)
Definition matchFrontmatter (content : jsstring) : option jsstring :=
  match content with
  | d1 :: d2 :: d3 :: r =>
      if N.eqb d1 DASH && N.eqb d2 DASH && N.eqb d3 DASH then
        match r with
        | c1 :: r1 =>
            if N.eqb c1 LF then lazyUntilClose r1
            else if N.eqb c1 CR then
              match r1 with
              | c2 :: r2 => if N.eqb c2 LF then lazyUntilClose r2 else None
              | [] => None
              end
            else None
        | [] => None
        end
      else None
  | _ => None
  end.

End Re.
Import Re.

(* ================================================================== *)
(** ** [parseYamlBlock] and [parseFrontmatter] *)
(* ================================================================== *)

(** The condition of line 56: the value is empty or a block scalar marker. *)
Definition isBlockMarker (value : jsstring) : bool :=
  str_eqb value [] || str_eqb value (jstr "|") || str_eqb value (jstr ">").

(** The inner loop of lines 60-67, started at index [i] with [rest] the
    lines from [i] on: the child lines collected and the index reached. *)
Fixpoint collectChildren (rest : list jsstring) (i : nat) (indent : Z)
  : list jsstring * nat :=
  match rest with
  | [] => ([], i)
  | childLine :: rest' =>
      if isBlank childLine then collectChildren rest' (S i) indent
      else if (search_nonspace childLine <=? indent)%Z then ([], i)
      else let '(children, j) := collectChildren rest' (S i) indent in
           (childLine :: children, j)
  end.

(** Lines 68-72: a list of strings when the first child starts with a dash
    and a space, the nested mapping of the recursive call [rec] otherwise. *)
Definition blockValue (rec : jsstring -> option value) (childLines : list jsstring)
  : option value :=
  match childLines with
  | first :: _ =>
      if startsWith (jstr "- ") (trim first) then
        Some (VArr (map (fun l => VStr (stripDash (trim l))) childLines))
      else rec (join_nl childLines)
  | [] => rec (join_nl childLines)
  end.

(** Lines 73-89: the value stored for a line whose value is on the line. *)
Definition inlineValue (value : jsstring) : JsValue.value :=
  if startsWith (jstr "{") value then
    match JSON_parse value with Some v => v | None => VStr value end
  else if startsWith (jstr "[") value then
    match JSON_parse value with Some v => v | None => VStr value end
  else if startsWith [QUOTE] value && endsWith [QUOTE] value then
    VStr (slice 1 (-1) value)
  else if startsWith [APOS] value && endsWith [APOS] value then
    VStr (slice 1 (-1) value)
  else if str_eqb value (jstr "true") then VBool true
  else if str_eqb value (jstr "false") then VBool false
  else VStr value.

(** Lines 90-91: whether [i] is incremented after the assignment, from
    what [result[key]] reads. *)
Definition advances (s : slot) : bool :=
  if negb (isArray s) && negb (jstype_eqb (typeof s) TObject) then true
  else if jstype_eqb (typeof s) TString || jstype_eqb (typeof s) TBoolean then true
  else false.

Definition nextIndex (result : value) (key : jsstring) (i : nat) : nat :=
  if advances (ob_get result key) then S i else i.

(** The loop of lines 44-92 at index [i] with the mapping built so far.
    [rec] is the recursive call of line 71.  [None] stands for a run that
    has not returned within [fuel] iterations. *)
Fixpoint whileLoop (rec : jsstring -> option value) (fuel : nat)
  (lines : list jsstring) (i : nat) (result : value) : option value :=
  match fuel with
  | O => None
  | S f =>
      match nth_error lines i with
      | None => Some result
      | Some line =>
          if isBlank line || isComment line then whileLoop rec f lines (S i) result
          else
            match kvMatch line with
            | None => whileLoop rec f lines (S i) result
            | Some (_, key, raw) =>
                let indent := search_nonspace line in
                let value := trim raw in
                if isBlockMarker value then
                  let '(childLines, j) :=
                    collectChildren (skipn (S i) lines) (S i) indent in
                  match blockValue rec childLines with
                  | None => None
                  | Some v =>
                      let result' := ob_set result key v in
                      whileLoop rec f lines (nextIndex result' key j) result'
                  end
                else
                  let result' := ob_set result key (inlineValue value) in
                  whileLoop rec f lines (nextIndex result' key i) result'
            end
      end
  end.

Fixpoint parseYamlBlock (fuel : nat) (text : jsstring) : option value :=
  match fuel with
  | O => None
  | S f => whileLoop (parseYamlBlock f) f (split_nl text) 0 emptyObject
  end.

(** [parseFrontmatter]: [Some VNull] is the [null] of line 35. *)
Definition parseFrontmatter (fuel : nat) (content : jsstring) : option value :=
  match matchFrontmatter content with
  | None => Some VNull
  | Some block => parseYamlBlock fuel block
  end.

(** A call returns [v], or never returns. *)
Definition returns (text : jsstring) (v : value) : Prop :=
  exists fuel, parseYamlBlock fuel text = Some v.

Definition diverges (text : jsstring) : Prop :=
  forall fuel, parseYamlBlock fuel text = None.

(* ================================================================== *)
(** ** Notions the statements use *)
(* ================================================================== *)

Definition isObjectValue (v : value) : bool :=
  match v with VObj _ _ => true | _ => false end.

Definition isArrayValue (v : value) : bool :=
  match v with VArr _ => true | _ => false end.

(** What lines 47-54 make of a line: nothing for a blank line, a comment
    or a line the key-value pattern does not match, the key and the trimmed
    value otherwise. *)
Definition lineEntry (line : jsstring) : option (jsstring * jsstring) :=
  if isBlank line || isComment line then None
  else match kvMatch line with
       | Some (_, key, raw) => Some (key, trim raw)
       | None => None
       end.

(** A line the loop deals with in one iteration: one it skips, or an entry
    whose value is on the line, whose key is not [__proto__], and whose
    stored value is a string or a boolean. *)
Definition flatLine (line : jsstring) : bool :=
  match lineEntry line with
  | None => true
  | Some (key, val) =>
      negb (isBlockMarker val) && negb (str_eqb key PROTO)
      && negb (isObjectValue (inlineValue val) || isArrayValue (inlineValue val))
  end.

(** What such a line does to the own properties of the result. *)
Definition store (props : list (jsstring * value)) (line : jsstring)
  : list (jsstring * value) :=
  match lineEntry line with
  | None => props
  | Some (key, val) => put key (inlineValue val) props
  end.

(** A key the key pattern takes whole. *)
Definition isKey (k : jsstring) : bool :=
  match k with
  | [] => false
  | _ :: _ => forallb isKeyChar k
  end.

Definition noLF (s : jsstring) : bool := forallb (fun c => negb (N.eqb c LF)) s.

(** A string that is not empty and neither starts nor ends with white
    space: [trim] leaves it as it is. *)
Definition isTrimmed (s : jsstring) : bool :=
  match s, rev s with
  | c :: _, d :: _ => negb (isWhiteSpace c) && negb (isWhiteSpace d)
  | _, _ => false
  end.

(** A value that starts an object or an array and that [JSON.parse]
    accepts. *)
Definition isJsonText (v : jsstring) : bool :=
  (startsWith (jstr "{") v || startsWith (jstr "[") v)
  && match JSON_parse v with
     | Some _ => true
     | None => false
     end.

(** A value in quotes of one kind. *)
Definition isQuoted (v : jsstring) : bool :=
  startsWith [QUOTE] v && endsWith [QUOTE] v
  || startsWith [APOS] v && endsWith [APOS] v.

(** A string the parser stores unchanged when it is the value of a line:
    it is on one line and [trim] leaves it as it is, it is neither empty
    nor a block marker, and it is none of the values lines 73-86 turn into
    something else, which are the texts [JSON.parse] accepts, the values in
    quotes and the two boolean words.  A value that starts an object or an
    array and that [JSON.parse] rejects is plain. *)
Definition isPlain (v : jsstring) : bool :=
  isTrimmed v && forallb notLineTerminator v
  && negb (isBlockMarker v)
  && negb (isJsonText v)
  && negb (isQuoted v)
  && negb (str_eqb v (jstr "true")) && negb (str_eqb v (jstr "false")).

(** A mapping of strings as the list of its entries, the line of an entry
    at indentation zero, and the text of the mapping. *)
Definition entryLine (e : jsstring * jsstring) : jsstring :=
  fst e ++ COLON :: SPACE :: snd e.

Definition serialize (entries : list (jsstring * jsstring)) : jsstring :=
  join_nl (map entryLine entries).

Definition stringMapping (entries : list (jsstring * jsstring)) : value :=
  VObj (map (fun e => (fst e, VStr (snd e))) entries) None.

Definition goodEntry (e : jsstring * jsstring) : bool :=
  isKey (fst e) && negb (str_eqb (fst e) PROTO) && isPlain (snd e).



(** The frontmatter pattern in words: the content opens with three dashes
    and a line break, and somewhere in what follows a line break and three
    dashes come. *)
Definition opens (content rest : jsstring) : Prop :=
  content = jstr "---\n" ++ rest \/ content = jstr "---\r\n" ++ rest.

Definition closesLater (rest : jsstring) : Prop :=
  exists pre post, rest = pre ++ post /\ closesAt post = true.

(** The reading of the delimiters by lines: a delimiter line is a line of
    exactly three dashes, and the block is what stands between the first
    line, when it is one, and the next one. *)
Definition isDelimiterLine (l : jsstring) : bool := str_eqb l (jstr "---").

Fixpoint linesUntilDelimiter (ls : list jsstring) : option (list jsstring) :=
  match ls with
  | [] => None
  | l :: r =>
      if isDelimiterLine l then Some []
      else match linesUntilDelimiter r with
           | Some b => Some (l :: b)
           | None => None
           end
  end.

Definition blockByLines (content : jsstring) : option jsstring :=
  match split_nl content with
  | l :: r =>
      if isDelimiterLine l then
        match linesUntilDelimiter r with
        | Some b => Some (join_nl b)
        | None => None
        end
      else None
  | [] => None
  end.

(** The line that opens a block: a key, a colon, white space and a value
    that is empty or a block marker. *)
Definition blockHeader (key sp marker : jsstring) : jsstring :=
  key ++ COLON :: sp ++ marker.

(** A line the inner loop of lines 60-67 collects under a key line at
    indentation zero. *)
Definition isChildLine (c : jsstring) : bool :=
  negb (isBlank c) && (0 <? search_nonspace c)%Z && noLF c.

(** The test of line 68 on the collected lines. *)
Definition startsList (children : list jsstring) : bool :=
  match children with
  | first :: _ => startsWith (jstr "- ") (trim first)
  | [] => false
  end.


Definition isStringValue (v : value) : bool :=
  match v with VStr _ => true | _ => false end.

(** A line that is not an entry with the key [k]. *)
Definition keyIsNot (k : jsstring) (line : jsstring) : bool :=
  match lineEntry line with
  | Some (key, _) => negb (str_eqb key k)
  | None => true
  end.

(** The values the block parser builds from lines that have no key
    [__proto__]: strings, booleans, lists of strings, and mappings that
    have the built-in prototype and take keys of the key pattern to such
    values. *)
Fixpoint plainShape (v : value) : bool :=
  match v with
  | VStr _ | VBool _ => true
  | VArr items => forallb isStringValue items
  | VObj props proto =>
      match proto with
      | Some _ => false
      | None =>
          (fix all (ps : list (jsstring * value)) : bool :=
             match ps with
             | [] => true
             | (k, x) :: r => isKey k && plainShape x && all r
             end) props
      end
  | _ => false
  end.









(** A line, and the line with a carriage return or nothing after it. *)
Definition crEq (l l' : jsstring) : Prop := l' = l \/ l' = l ++ [CR].

(* ================================================================== *)
(** ** The checks of [validate] on strings *)
(* ================================================================== *)

Module Validate.

Local Open Scope N_scope.

(** Line 132, the name pattern: a lowercase letter or a digit, then
    lowercase letters, digits and dashes up to the end. *)
Definition isLowerOrDigit (c : char) : bool := between 97 122 c || between 48 57 c.

Definition nameTest (s : jsstring) : bool :=
  match s with
  | c :: r => isLowerOrDigit c && forallb (fun x => isLowerOrDigit x || N.eqb x DASH) r
  | [] => false
  end.

(** Line 157, the version pattern: digits, a dot, digits, a dot, digits,
    from the start of the string; what comes after is not looked at. *)
Definition digitsThen (s : jsstring) : option jsstring :=
  match takeWhile isDigit s with
  | [] => None
  | _ :: _ => Some (dropWhile isDigit s)
  end.

Definition dotThen (s : jsstring) : option jsstring :=
  match s with
  | c :: r => if N.eqb c DOT then Some r else None
  | [] => None
  end.

Definition versionTest (s : jsstring) : bool :=
  match digitsThen s with
  | Some r1 =>
      match dotThen r1 with
      | Some r2 =>
          match digitsThen r2 with
          | Some r3 =>
              match dotThen r3 with
              | Some r4 =>
                  match digitsThen r4 with
                  | Some _ => true
                  | None => false
                  end
              | None => false
              end
          | None => false
          end
      | None => false
      end
  | None => false
  end.

(** Line 313, the body: the content without what the body pattern matches
    at its start, which is three dashes, the shortest text up to three
    more dashes, those, and the white space after them. *)
Fixpoint afterDashes (s : jsstring) : option jsstring :=
  if startsWith [DASH; DASH; DASH] s then Some (skipn 3 s)
  else match s with
       | [] => None
       | _ :: r => afterDashes r
       end.

Definition bodyOf (content : jsstring) : jsstring :=
  if startsWith [DASH; DASH; DASH] content then
    match afterDashes (skipn 3 content) with
    | Some tail => trimStart tail
    | None => content
    end
  else content.

(** Whether three dashes in a row occur in a string. *)
Fixpoint hasDashes (s : jsstring) : bool :=
  startsWith [DASH; DASH; DASH] s
  || match s with
     | [] => false
     | _ :: r => hasDashes r
     end.

Definition isLineBreak (nl : jsstring) : bool :=
  str_eqb nl [LF] || str_eqb nl [CR; LF].

(** A string of digits that is not empty. *)
Definition isDigits (a : jsstring) : bool :=
  match a with
  | [] => false
  | _ :: _ => forallb isDigit a
  end.

End Validate.
Import Validate.

(* ================================================================== *)
(** ** The request body on the command line of [makeRequest] *)
(* ================================================================== *)

Module Shell.

Local Open Scope N_scope.

(** cli.js, line 71: every single quote of the data is replaced by a
    single quote, a double quote, a single quote, a double quote and a
    single quote. *)
Definition escapeQuotes (s : jsstring) : jsstring :=
  flat_map (fun c => if N.eqb c APOS then [APOS; QUOTE; APOS; QUOTE; APOS] else [c]) s.

(** Lines 72-74: the argument of the option d. *)
Definition dataArgument (jsonData : jsstring) : jsstring :=
  APOS :: escapeQuotes jsonData ++ [APOS].

(** How the shell reads a word made of quoted parts.  Between single
    quotes every character stands for itself; between double quotes every
    character does, except the dollar sign, the backquote and the
    backslash; outside quotes only the two quote characters are dealt
    with.  [None] is a word this reading does not cover, or one with a
    quote left open. *)
Inductive quoting : Type := Unquoted | SingleQuoted | DoubleQuoted.

Definition isDoubleQuoteSpecial (c : char) : bool :=
  N.eqb c 36 || N.eqb c 96 || N.eqb c 92.

Fixpoint shellWord (q : quoting) (s : jsstring) : option jsstring :=
  match s with
  | [] => match q with Unquoted => Some [] | _ => None end
  | c :: r =>
      match q with
      | Unquoted =>
          if N.eqb c APOS then shellWord SingleQuoted r
          else if N.eqb c QUOTE then shellWord DoubleQuoted r
          else None
      | SingleQuoted =>
          if N.eqb c APOS then shellWord Unquoted r
          else match shellWord SingleQuoted r with
               | Some w => Some (c :: w)
               | None => None
               end
      | DoubleQuoted =>
          if N.eqb c QUOTE then shellWord Unquoted r
          else if isDoubleQuoteSpecial c then None
          else match shellWord DoubleQuoted r with
               | Some w => Some (c :: w)
               | None => None
               end
      end
  end.

End Shell.
Import Shell.

(* ================================================================== *)
(** ** Strings and objects: basic facts *)
(* ================================================================== *)

Lemma str_eqb_refl (a : jsstring) : str_eqb a a = true.
Proof.
  induction a as [|x a IH]; simpl; [reflexivity|].
  now rewrite N.eqb_refl, IH.
Qed.

Lemma str_eqb_eq (a b : jsstring) : str_eqb a b = true <-> a = b.
Proof.
  split; [|intros ->; apply str_eqb_refl].
  revert b; induction a as [|x a IH]; intros [|y b]; simpl; try discriminate; auto.
  intros H; apply andb_true_iff in H as [H1 H2].
  apply N.eqb_eq in H1; apply IH in H2; congruence.
Qed.

Lemma str_eqb_neq (a b : jsstring) : str_eqb a b = false <-> a <> b.
Proof.
  split.
  - intros H E; apply str_eqb_eq in E; congruence.
  - intros H; destruct (str_eqb a b) eqn:E; [|reflexivity].
    apply str_eqb_eq in E; contradiction.
Qed.


Lemma assoc_put_same k v props : assoc k (put k v props) = Some v.
Proof.
  induction props as [|[k' v'] r IH]; simpl.
  - now rewrite str_eqb_refl.
  - destruct (str_eqb k k') eqn:E; simpl; rewrite E; auto.
Qed.

Lemma assoc_put_other k k' v props :
  k <> k' -> assoc k (put k' v props) = assoc k props.
Proof.
  intros N; induction props as [|[k0 v0] r IH]; simpl.
  - apply str_eqb_neq in N; now rewrite N.
  - destruct (str_eqb k' k0) eqn:E; simpl.
    + apply str_eqb_eq in E; subst k0.
      apply str_eqb_neq in N; now rewrite N.
    + now rewrite IH.
Qed.

(** Assigning under a key other than [__proto__] defines the own property. *)
Lemma ob_set_plain props proto k v :
  k <> PROTO -> ob_set (VObj props proto) k v = VObj (put k v props) proto.
Proof.
  intros N; unfold ob_set.
  destruct (assoc k props); [reflexivity|].
  apply str_eqb_neq in N; now rewrite N.
Qed.

Lemma ob_get_own props proto k v :
  assoc k props = Some v -> ob_get (VObj props proto) k = Got v.
Proof. intros H; unfold ob_get; now rewrite H. Qed.

Lemma ob_get_set_plain props proto k v :
  k <> PROTO -> ob_get (ob_set (VObj props proto) k v) k = Got v.
Proof.
  intros N; rewrite ob_set_plain by assumption.
  apply ob_get_own, assoc_put_same.
Qed.

Lemma ob_set_is_object o k v :
  (exists props proto, o = VObj props proto) ->
  exists props' proto', ob_set o k v = VObj props' proto'.
Proof.
  intros (props & proto & ->); unfold ob_set.
  destruct (assoc k props); [eauto|].
  destruct (str_eqb k PROTO && accessor_visible proto); [|eauto].
  destruct (isObjectOrNull v); eauto.
Qed.

(* ================================================================== *)
(** ** What [JSON.parse] returns for a text that starts an object or an
       array *)
(* ================================================================== *)

Lemma jmembers_object fuel s props v rest :
  jmembers fuel s props = JOk v rest -> isObjectValue v = true.
Proof.
  revert s props.
  induction fuel as [|f IH]; intros s props; simpl; [discriminate|].
  destruct (skip_ws s) as [|c r]; [discriminate|].
  destruct (N.eqb c 34); [|discriminate].
  destruct (jchars r) as [[k r1]|]; [|discriminate].
  destruct (skip_ws r1) as [|c1 r2]; [discriminate|].
  destruct (N.eqb c1 58); [|discriminate].
  destruct (jvalue f r2) as [v0 r3| |]; try discriminate.
  destruct (skip_ws r3) as [|c3 r4]; [discriminate|].
  destruct (N.eqb c3 44); [apply IH|].
  destruct (N.eqb c3 125); [|discriminate].
  intros H; inversion H; reflexivity.
Qed.

Lemma jelements_array fuel s acc v rest :
  jelements fuel s acc = JOk v rest -> isArrayValue v = true.
Proof.
  revert s acc.
  induction fuel as [|f IH]; intros s acc; simpl; [discriminate|].
  destruct (jvalue f s) as [v0 r| |]; try discriminate.
  destruct (skip_ws r) as [|c r']; [discriminate|].
  destruct (N.eqb c 44); [apply IH|].
  destruct (N.eqb c 93); [|discriminate].
  intros H; inversion H; reflexivity.
Qed.

Lemma startsWith_single (c : char) (s : jsstring) :
  startsWith [c] s = true -> exists r, s = c :: r.
Proof.
  destruct s as [|y r]; cbn [startsWith]; [discriminate|].
  rewrite andb_true_r; intros H; apply N.eqb_eq in H; subst; eauto.
Qed.

Lemma JSON_parse_brace s v :
  startsWith (jstr "{") s = true -> JSON_parse s = Some v -> isObjectValue v = true.
Proof.
  change (jstr "{") with [123%N].
  intros Hs; apply startsWith_single in Hs as [r ->].
  unfold JSON_parse.
  match goal with |- context [jvalue ?n _] => generalize n; intros fuel end.
  destruct fuel as [|f]; [cbn [jvalue]; discriminate|].
  cbn [jvalue].
  change (skip_ws (123%N :: r)) with (123%N :: r).
  cbv beta iota. change (N.eqb 123 123) with true. cbv iota.
  destruct (skip_ws r) as [|c' r'] eqn:Er; [discriminate|].
  destruct (N.eqb c' 125).
  - intros H; destruct (skip_ws r'); inversion H; reflexivity.
  - destruct (jmembers f r []) as [v0 rest| |] eqn:Em; try discriminate.
    intros H; destruct (skip_ws rest); inversion H; subst.
    eapply jmembers_object; eauto.
Qed.

Lemma JSON_parse_bracket s v :
  startsWith (jstr "[") s = true -> JSON_parse s = Some v -> isArrayValue v = true.
Proof.
  change (jstr "[") with [91%N].
  intros Hs; apply startsWith_single in Hs as [r ->].
  unfold JSON_parse.
  match goal with |- context [jvalue ?n _] => generalize n; intros fuel end.
  destruct fuel as [|f]; [cbn [jvalue]; discriminate|].
  cbn [jvalue].
  change (skip_ws (91%N :: r)) with (91%N :: r).
  cbv beta iota. change (N.eqb 91 123) with false. change (N.eqb 91 91) with true.
  cbv iota.
  destruct (skip_ws r) as [|c' r'] eqn:Er; [discriminate|].
  destruct (N.eqb c' 93).
  - intros H; destruct (skip_ws r'); inversion H; reflexivity.
  - destruct (jelements f r []) as [v0 rest| |] eqn:Em; try discriminate.
    intros H; destruct (skip_ws rest); inversion H; subst.
    eapply jelements_array; eauto.
Qed.

(* ================================================================== *)
(** ** One iteration of the loop *)
(* ================================================================== *)

Section Iteration.

Variable rec : jsstring -> option value.
Variable lines : list jsstring.

Lemma loop_end f i result :
  nth_error lines i = None -> whileLoop rec (S f) lines i result = Some result.
Proof. intros H; cbn [whileLoop]; now rewrite H. Qed.

Lemma loop_skip f i result line :
  nth_error lines i = Some line -> lineEntry line = None ->
  whileLoop rec (S f) lines i result = whileLoop rec f lines (S i) result.
Proof.
  intros H E; cbn [whileLoop]; rewrite H.
  unfold lineEntry in E.
  destruct (isBlank line || isComment line); [reflexivity|].
  destruct (kvMatch line) as [[[g1 key] raw]|]; [discriminate|reflexivity].
Qed.

Lemma loop_inline f i result line key val :
  nth_error lines i = Some line -> lineEntry line = Some (key, val) ->
  isBlockMarker val = false ->
  whileLoop rec (S f) lines i result =
  whileLoop rec f lines
    (nextIndex (ob_set result key (inlineValue val)) key i)
    (ob_set result key (inlineValue val)).
Proof.
  intros H E B; cbn [whileLoop]; rewrite H.
  unfold lineEntry in E.
  destruct (isBlank line || isComment line); [discriminate|].
  destruct (kvMatch line) as [[[g1 k] raw]|]; [|discriminate].
  inversion E; subst; now rewrite B.
Qed.

Lemma loop_block f i result line key val children j :
  nth_error lines i = Some line -> lineEntry line = Some (key, val) ->
  isBlockMarker val = true ->
  collectChildren (skipn (S i) lines) (S i) (search_nonspace line) = (children, j) ->
  whileLoop rec (S f) lines i result =
  match blockValue rec children with
  | None => None
  | Some v =>
      whileLoop rec f lines (nextIndex (ob_set result key v) key j)
        (ob_set result key v)
  end.
Proof.
  intros H E B C; cbn [whileLoop]; rewrite H.
  unfold lineEntry in E.
  destruct (isBlank line || isComment line); [discriminate|].
  destruct (kvMatch line) as [[[g1 k] raw]|]; [|discriminate].
  inversion E; subst; now rewrite B, C.
Qed.

(** The index stays where it is when what was stored reads back as an
    object or an array. *)
Lemma nextIndex_stays props proto key v i :
  key <> PROTO -> isObjectValue v || isArrayValue v = true ->
  nextIndex (ob_set (VObj props proto) key v) key i = i.
Proof.
  intros N O; unfold nextIndex.
  rewrite ob_get_set_plain by assumption.
  destruct v; try discriminate; reflexivity.
Qed.

Lemma nextIndex_moves props proto key v i :
  key <> PROTO -> isObjectValue v || isArrayValue v = false -> v <> VNull ->
  nextIndex (ob_set (VObj props proto) key v) key i = S i.
Proof.
  intros N O Z; unfold nextIndex.
  rewrite ob_get_set_plain by assumption.
  destruct v; try discriminate; try reflexivity; congruence.
Qed.

(** An entry line whose value is on the line and is stored as an object
    or an array is never left. *)
Lemma loop_stalls i line key val :
  nth_error lines i = Some line -> lineEntry line = Some (key, val) ->
  isBlockMarker val = false -> key <> PROTO ->
  isObjectValue (inlineValue val) || isArrayValue (inlineValue val) = true ->
  forall fuel props proto, whileLoop rec fuel lines i (VObj props proto) = None.
Proof.
  intros H E B N O fuel.
  induction fuel as [|f IH]; intros props proto; [reflexivity|].
  rewrite (loop_inline f i (VObj props proto) line key val H E B).
  rewrite nextIndex_stays by assumption.
  rewrite ob_set_plain by assumption.
  apply IH.
Qed.

End Iteration.

(** The stored value of a line is a string or a boolean, unless the value
    starts an object or an array that [JSON.parse] accepts. *)
Lemma inlineValue_cases (val : jsstring) :
  (exists s, inlineValue val = VStr s) \/
  (exists b, inlineValue val = VBool b) \/
  (exists j, JSON_parse val = Some j /\ inlineValue val = j /\
             startsWith (jstr "{") val || startsWith (jstr "[") val = true /\
             isObjectValue j || isArrayValue j = true).
Proof.
  unfold inlineValue.
  destruct (startsWith (jstr "{") val) eqn:E1.
  { destruct (JSON_parse val) as [j|] eqn:J; [|eauto].
    right; right; exists j; repeat split; auto.
    now rewrite (JSON_parse_brace _ _ E1 J). }
  destruct (startsWith (jstr "[") val) eqn:E2.
  { destruct (JSON_parse val) as [j|] eqn:J; [|eauto].
    right; right; exists j; repeat split; auto.
    rewrite (JSON_parse_bracket _ _ E2 J); apply orb_true_r. }
  destruct (startsWith [QUOTE] val && endsWith [QUOTE] val); [eauto|].
  destruct (startsWith [APOS] val && endsWith [APOS] val); [eauto|].
  destruct (str_eqb val (jstr "true")); [eauto|].
  destruct (str_eqb val (jstr "false")); eauto.
Qed.

(* ================================================================== *)
(** ** Claims on inline JSON and on termination *)
(* ================================================================== *)

(** C1 (termination).  The claim fails on the code: on the one-line text
    whose line is the key obj with the inline JSON object of the spec as its
    value, neither [parseYamlBlock] nor [parseFrontmatter] (on the same line
    between two delimiter lines) returns, whatever number of iterations is
    allowed.  Lines 90-91 leave the index where it is when the stored value
    is an object or an array, which is right after a child block (whose
    lines the inner loop has consumed) and wrong after inline JSON. *)
Theorem C1_inline_json_never_returns :
  diverges (jstr "obj: {\qa\q: 1}") /\
  (forall fuel, parseFrontmatter fuel (jstr "---\nobj: {\qa\q: 1}\n---\n") = None).
Proof.
  assert (D : diverges (jstr "obj: {\qa\q: 1}")).
  { intros [|f]; [reflexivity|].
    cbn [parseYamlBlock].
    eapply loop_stalls with (key := jstr "obj"); try (vm_compute; reflexivity).
    vm_compute; discriminate. }
  split; [exact D|].
  intros fuel.
  change (parseFrontmatter fuel (jstr "---\nobj: {\qa\q: 1}\n---\n"))
    with (parseYamlBlock fuel (jstr "obj: {\qa\q: 1}")).
  apply D.
Qed.

(** When [JSON.parse] throws, the raw trimmed string is stored. *)
Lemma inlineValue_json_fallback (val : jsstring) :
  startsWith (jstr "{") val || startsWith (jstr "[") val = true ->
  JSON_parse val = None -> inlineValue val = VStr val.
Proof.
  intros S J; unfold inlineValue; rewrite J.
  destruct (startsWith (jstr "{") val) eqn:E1; [reflexivity|].
  rewrite orb_false_l in S; now rewrite S.
Qed.

(** When it succeeds, what it returns is stored. *)
Lemma inlineValue_json_parsed (val : jsstring) (j : value) :
  startsWith (jstr "{") val || startsWith (jstr "[") val = true ->
  JSON_parse val = Some j -> inlineValue val = j.
Proof.
  intros S J; unfold inlineValue; rewrite J.
  destruct (startsWith (jstr "{") val) eqn:E1; [reflexivity|].
  rewrite orb_false_l in S; now rewrite S.
Qed.

(** C2 (inline JSON).  The fallback half of the claim holds: the value
    [{not json}] is stored as that string and the next line is parsed.  The
    other half fails on the code: the value of the spec's example is parsed
    to the object with the one member a, and that object is what the loop
    stores, but the loop then stays on the line for ever, so the lines
    after it are never parsed and the call never returns. *)
Theorem C2_inline_json_value_and_continuation :
  returns (jstr "obj: {not json}\nz: 1\n")
    (VObj [(jstr "obj", VStr (jstr "{not json}")); (jstr "z", VStr (jstr "1"))] None)
  /\ inlineValue (jstr "{\qa\q: 1}") = VObj [(jstr "a", VNum (jstr "1"))] None
  /\ diverges (jstr "obj: {\qa\q: 1}\nz: 1\n").
Proof.
  split; [exists 5; vm_compute; reflexivity|].
  split; [vm_compute; reflexivity|].
  intros [|f]; [reflexivity|].
  cbn [parseYamlBlock].
  eapply loop_stalls with (key := jstr "obj"); try (vm_compute; reflexivity).
  vm_compute; discriminate.
Qed.

(* ================================================================== *)
(** ** Claims on scalar values *)
(* ================================================================== *)

(** C7 (booleans).  The value stored for a line is the boolean [b] exactly
    when the trimmed value of the line is the lowercase word for [b]; the
    line of the spec gives the boolean, the capitalised word a string. *)
Theorem C7_boolean_coercion :
  (forall val b,
      inlineValue val = VBool b <-> val = jstr (if b then "true" else "false"))
  /\ returns (jstr "flag: true\n") (VObj [(jstr "flag", VBool true)] None)
  /\ returns (jstr "flag: false\n") (VObj [(jstr "flag", VBool false)] None)
  /\ returns (jstr "flag: True\n") (VObj [(jstr "flag", VStr (jstr "True"))] None).
Proof.
  split; [|repeat split; exists 5; vm_compute; reflexivity].
  intros val b; split.
  - destruct (inlineValue_cases val) as [[s E]|[[b' E]|(j & J & E & S & O)]].
    + rewrite E; discriminate.
    + clear E. unfold inlineValue.
      destruct (startsWith (jstr "{") val) eqn:E1.
      { destruct (JSON_parse val) as [j|] eqn:J; [|discriminate].
        intros ->. apply (JSON_parse_brace _ _ E1) in J; discriminate. }
      destruct (startsWith (jstr "[") val) eqn:E2.
      { destruct (JSON_parse val) as [j|] eqn:J; [|discriminate].
        intros ->. apply (JSON_parse_bracket _ _ E2) in J; discriminate. }
      destruct (startsWith [QUOTE] val && endsWith [QUOTE] val); [discriminate|].
      destruct (startsWith [APOS] val && endsWith [APOS] val); [discriminate|].
      destruct (str_eqb val (jstr "true")) eqn:T.
      { apply str_eqb_eq in T; intros H; inversion H; subst; reflexivity. }
      destruct (str_eqb val (jstr "false")) eqn:F; [|discriminate].
      apply str_eqb_eq in F; intros H; inversion H; subst; reflexivity.
    + rewrite E; intros ->; discriminate.
  - intros ->; destruct b; vm_compute; reflexivity.
Qed.

(** C10 (a lone quote).  A value that is a single quote character of
    either kind passes both the starts-with and the ends-with test of its
    kind, and [slice(1, -1)] of a one-character string is empty: the value
    stored is the empty string. *)
Theorem C10_lone_quote_is_empty_string :
  (startsWith [QUOTE] [QUOTE] && endsWith [QUOTE] [QUOTE] = true)
  /\ (startsWith [APOS] [APOS] && endsWith [APOS] [APOS] = true)
  /\ (forall c : char, slice 1 (-1) [c] = [])
  /\ inlineValue [QUOTE] = VStr []
  /\ inlineValue [APOS] = VStr []
  /\ returns (jstr "k: \q\n") (VObj [(jstr "k", VStr [])] None)
  /\ returns (jstr "k: '\n") (VObj [(jstr "k", VStr [])] None).
Proof.
  split; [vm_compute; reflexivity|].
  split; [vm_compute; reflexivity|].
  split; [intros c; reflexivity|].
  split; [vm_compute; reflexivity|].
  split; [vm_compute; reflexivity|].
  split; exists 5; vm_compute; reflexivity.
Qed.

(* ================================================================== *)
(** ** More iterations never change a result *)
(* ================================================================== *)

Lemma blockValue_mono (rec rec' : jsstring -> option value) children v :
  (forall t w, rec t = Some w -> rec' t = Some w) ->
  blockValue rec children = Some v -> blockValue rec' children = Some v.
Proof.
  intros R; unfold blockValue.
  destruct children as [|first rest]; [apply R|].
  destruct (startsWith (jstr "- ") (trim first)); [auto|apply R].
Qed.

Lemma whileLoop_mono (rec rec' : jsstring -> option value) lines :
  (forall t w, rec t = Some w -> rec' t = Some w) ->
  forall f i result v,
    whileLoop rec f lines i result = Some v ->
    forall f', f <= f' -> whileLoop rec' f' lines i result = Some v.
Proof.
  intros R f; induction f as [|f IH]; intros i result v H f' L; [discriminate|].
  destruct f' as [|f']; [lia|].
  assert (L' : f <= f') by lia.
  cbn [whileLoop] in *.
  destruct (nth_error lines i) as [line|]; [|assumption].
  destruct (isBlank line || isComment line); [eapply IH; eauto|].
  destruct (kvMatch line) as [[[g1 key] raw]|]; [|eapply IH; eauto].
  destruct (isBlockMarker (trim raw)); [|eapply IH; eauto].
  destruct (collectChildren (skipn (S i) lines) (S i) (search_nonspace line))
    as [children j].
  destruct (blockValue rec children) as [x|] eqn:B; [|discriminate].
  rewrite (blockValue_mono rec rec' children x R B).
  eapply IH; eauto.
Qed.

Lemma parseYamlBlock_mono f :
  forall text v, parseYamlBlock f text = Some v ->
  forall f', f <= f' -> parseYamlBlock f' text = Some v.
Proof.
  induction f as [|f IH]; intros text v H f' L; [discriminate|].
  destruct f' as [|f']; [lia|].
  cbn [parseYamlBlock] in *.
  eapply whileLoop_mono; [| eassumption | lia].
  intros t w Hw; eapply IH; [eassumption | lia].
Qed.

(** A call has at most one result. *)
Lemma returns_deterministic text v v' :
  returns text v -> returns text v' -> v = v'.
Proof.
  intros [f H] [f' H'].
  apply parseYamlBlock_mono with (f' := Nat.max f f') in H; [|lia].
  apply parseYamlBlock_mono with (f' := Nat.max f f') in H'; [|lia].
  congruence.
Qed.

Lemma diverges_not_returns text v : diverges text -> ~ returns text v.
Proof. intros D [f H]; rewrite D in H; discriminate. Qed.

(* ================================================================== *)
(** ** What is returned is a mapping *)
(* ================================================================== *)

Lemma whileLoop_object rec lines f :
  forall i result v,
    isObjectValue result = true ->
    whileLoop rec f lines i result = Some v -> isObjectValue v = true.
Proof.
  induction f as [|f IH]; intros i result v O H; [discriminate|].
  assert (S : forall k x, isObjectValue (ob_set result k x) = true).
  { intros k x. destruct result; try discriminate.
    destruct (ob_set_is_object (VObj props proto) k x) as (p' & q' & ->); eauto. }
  cbn [whileLoop] in H.
  destruct (nth_error lines i) as [line|]; [|inversion H; subst; assumption].
  destruct (isBlank line || isComment line); [eapply IH; eauto|].
  destruct (kvMatch line) as [[[g1 key] raw]|]; [|eapply IH; eauto].
  destruct (isBlockMarker (trim raw)); [|eapply IH; [apply S|eauto]].
  destruct (collectChildren (skipn (Datatypes.S i) lines) (Datatypes.S i) (search_nonspace line))
    as [children j].
  destruct (blockValue rec children) as [x|]; [|discriminate].
  eapply IH; [apply S|eauto].
Qed.

Lemma parseYamlBlock_object fuel text v :
  parseYamlBlock fuel text = Some v -> isObjectValue v = true.
Proof.
  destruct fuel as [|f]; [discriminate|].
  cbn [parseYamlBlock]; apply whileLoop_object; reflexivity.
Qed.

(* ================================================================== *)
(** ** Prefixes, key characters and trimmed strings *)
(* ================================================================== *)

Lemma takeWhile_all p s : forallb p s = true -> takeWhile p s = s.
Proof.
  induction s as [|c r IH]; simpl; [reflexivity|].
  intros H; apply andb_true_iff in H as [H1 H2]; rewrite H1, IH; auto.
Qed.

Lemma dropWhile_all p s : forallb p s = true -> dropWhile p s = [].
Proof.
  induction s as [|c r IH]; simpl; [reflexivity|].
  intros H; apply andb_true_iff in H as [H1 H2]; rewrite H1; auto.
Qed.

Lemma takeWhile_app p s c r :
  forallb p s = true -> p c = false -> takeWhile p (s ++ c :: r) = s.
Proof.
  intros H N; induction s as [|x s IH]; simpl in *; [now rewrite N|].
  apply andb_true_iff in H as [H1 H2]; rewrite H1, IH; auto.
Qed.

Lemma dropWhile_app p s c r :
  forallb p s = true -> p c = false -> dropWhile p (s ++ c :: r) = c :: r.
Proof.
  intros H N; induction s as [|x s IH]; simpl in *; [now rewrite N|].
  apply andb_true_iff in H as [H1 H2]; rewrite H1, IH; auto.
Qed.

Lemma dropWhile_head p c r : p c = false -> dropWhile p (c :: r) = c :: r.
Proof. intros H; simpl; now rewrite H. Qed.

Lemma takeWhile_head p c r : p c = false -> takeWhile p (c :: r) = [].
Proof. intros H; simpl; now rewrite H. Qed.

(** Key characters are neither white space, nor a colon, nor a hash. *)
Lemma isKeyChar_range c : isKeyChar c = true -> (45 <= c <= 122)%N /\ c <> 58%N.
Proof.
  unfold isKeyChar, isWordChar, between, DOT, DASH.
  rewrite !orb_true_iff, !andb_true_iff, !N.leb_le, !N.eqb_eq. lia.
Qed.

Lemma range_not_space c : (45 <= c <= 122)%N -> isWhiteSpace c = false.
Proof.
  intros H; unfold isWhiteSpace, between.
  rewrite !orb_false_iff, !andb_false_iff, !N.leb_gt, !N.eqb_neq. lia.
Qed.

Lemma isKeyChar_not_space c : isKeyChar c = true -> isWhiteSpace c = false.
Proof. intros H; apply range_not_space, isKeyChar_range, H. Qed.

Lemma isKeyChar_not_colon c : isKeyChar c = true -> N.eqb c COLON = false.
Proof. intros H; apply N.eqb_neq, isKeyChar_range, H. Qed.

Lemma isKeyChar_not_hash c : isKeyChar c = true -> N.eqb c HASH = false.
Proof. intros H; apply isKeyChar_range in H; apply N.eqb_neq; unfold HASH; lia. Qed.

Lemma isKey_inv k :
  isKey k = true -> exists c r, k = c :: r /\ isKeyChar c = true /\ forallb isKeyChar k = true.
Proof.
  destruct k as [|c r]; [discriminate|].
  unfold isKey; intros H; exists c, r; repeat split; auto.
  simpl in H; now apply andb_true_iff in H as [H _].
Qed.

Lemma isTrimmed_inv s :
  isTrimmed s = true ->
  exists c r d q, s = c :: r /\ rev s = d :: q /\
    isWhiteSpace c = false /\ isWhiteSpace d = false.
Proof.
  unfold isTrimmed; destruct s as [|c r]; [discriminate|].
  destruct (rev (c :: r)) as [|d q] eqn:E; [discriminate|].
  intros H; apply andb_true_iff in H as [H1 H2].
  apply negb_true_iff in H1, H2. exists c, r, d, q; auto.
Qed.

Lemma trim_trimmed s : isTrimmed s = true -> trim s = s.
Proof.
  intros H; destruct (isTrimmed_inv s H) as (c & r & d & q & E & R & Hc & Hd).
  unfold trim, trimStart, trimEnd.
  rewrite E at 1. rewrite (dropWhile_head _ c r Hc), <- E, R.
  rewrite (dropWhile_head _ d q Hd), <- R. apply rev_involutive.
Qed.

(* ================================================================== *)
(** ** The line patterns on a key, a colon and a value *)
(* ================================================================== *)

Lemma isBlank_head c r : isWhiteSpace c = false -> isBlank (c :: r) = false.
Proof. intros H; unfold isBlank; simpl; now rewrite H. Qed.

Lemma isComment_head c r :
  isWhiteSpace c = false -> N.eqb c HASH = false -> isComment (c :: r) = false.
Proof. intros H N; unfold isComment, trimStart; rewrite dropWhile_head; auto. Qed.

Lemma search_nonspace_head c r : isWhiteSpace c = false -> search_nonspace (c :: r) = 0%Z.
Proof. intros H; simpl; now rewrite H. Qed.

(** The key-value pattern on a key, a colon, white space and a value. *)
Lemma kvMatch_key_value k sp v :
  isKey k = true -> forallb isWhiteSpace sp = true ->
  (v = [] \/ exists c r, v = c :: r /\ isWhiteSpace c = false) ->
  kvMatch (k ++ COLON :: sp ++ v) = Some ([], k, takeWhile notLineTerminator v).
Proof.
  intros K S V.
  destruct (isKey_inv k K) as (c & r & E & Hc & Hk).
  assert (T : takeWhile isWhiteSpace (k ++ COLON :: sp ++ v) = []).
  { rewrite E; apply takeWhile_head; now apply isKeyChar_not_space. }
  assert (D : dropWhile isWhiteSpace (k ++ COLON :: sp ++ v) = k ++ COLON :: sp ++ v).
  { rewrite E; apply dropWhile_head; now apply isKeyChar_not_space. }
  unfold kvMatch; cbv zeta; rewrite T, D.
  rewrite takeWhile_app, dropWhile_app by (auto; reflexivity).
  rewrite E at 1.
  rewrite dropWhile_head by reflexivity.
  change (N.eqb COLON COLON) with true. cbv iota.
  replace (dropWhile isWhiteSpace (sp ++ v)) with v; [now rewrite E|].
  destruct V as [->|(c' & r' & -> & Hc')].
  - rewrite app_nil_r; symmetry; now apply dropWhile_all.
  - symmetry; now apply dropWhile_app.
Qed.

Lemma lineEntry_key_value k sp v :
  isKey k = true -> forallb isWhiteSpace sp = true ->
  (v = [] \/ exists c r, v = c :: r /\ isWhiteSpace c = false) ->
  lineEntry (k ++ COLON :: sp ++ v) = Some (k, trim (takeWhile notLineTerminator v)).
Proof.
  intros K S V. unfold lineEntry.
  rewrite kvMatch_key_value by assumption.
  destruct (isKey_inv k K) as (c & r & E & Hc & Hk).
  rewrite E at 1 2. cbn [app].
  rewrite isBlank_head, isComment_head;
    auto using isKeyChar_not_space, isKeyChar_not_hash.
Qed.

Lemma isPlain_inv v :
  isPlain v = true ->
  isTrimmed v = true /\ forallb notLineTerminator v = true /\
  isBlockMarker v = false /\ inlineValue v = VStr v.
Proof.
  unfold isPlain; rewrite !andb_true_iff, !negb_true_iff.
  intros ((((((T & L) & B) & J) & Q) & Tr) & Fa).
  repeat split; auto.
  unfold isQuoted in Q. apply orb_false_iff in Q as [Q P].
  unfold isJsonText in J. unfold inlineValue.
  destruct (startsWith (jstr "{") v) eqn:O.
  { cbn [orb andb] in J. destruct (JSON_parse v); [discriminate|reflexivity]. }
  destruct (startsWith (jstr "[") v) eqn:A.
  { cbn [orb andb] in J. destruct (JSON_parse v); [discriminate|reflexivity]. }
  now rewrite Q, P, Tr, Fa.
Qed.

Lemma lineEntry_entryLine e :
  isKey (fst e) = true -> isPlain (snd e) = true ->
  lineEntry (entryLine e) = Some (fst e, snd e).
Proof.
  intros K P; destruct (isPlain_inv _ P) as (T & L & B & I).
  unfold entryLine.
  change (fst e ++ COLON :: SPACE :: snd e) with (fst e ++ COLON :: [SPACE] ++ snd e).
  rewrite lineEntry_key_value; auto.
  - now rewrite takeWhile_all, trim_trimmed.
  - right. destruct (isTrimmed_inv _ T) as (c & r & d & q & E & _ & Hc & _); eauto.
Qed.

Lemma flatLine_entryLine e :
  goodEntry e = true ->
  flatLine (entryLine e) = true /\
  forall props, store props (entryLine e) = put (fst e) (VStr (snd e)) props.
Proof.
  unfold goodEntry; rewrite !andb_true_iff, negb_true_iff.
  intros [[K N] P]; destruct (isPlain_inv _ P) as (T & L & B & I).
  unfold flatLine, store; rewrite lineEntry_entryLine by assumption.
  rewrite B, N, I; split; reflexivity.
Qed.

(* ================================================================== *)
(** ** Lines of a text, and blocks of lines dealt with one by one *)
(* ================================================================== *)

Lemma split_nl_nonempty s : split_nl s <> [].
Proof.
  destruct s as [|c r]; simpl; [discriminate|].
  destruct (N.eqb c LF); [discriminate|].
  destruct (split_nl r); discriminate.
Qed.

Lemma split_nl_line x : noLF x = true -> split_nl x = [x].
Proof.
  induction x as [|c r IH]; simpl; [reflexivity|].
  intros H; apply andb_true_iff in H as [H1 H2].
  apply negb_true_iff in H1; rewrite H1, IH; auto.
Qed.

Lemma split_nl_cons x r : noLF x = true -> split_nl (x ++ LF :: r) = x :: split_nl r.
Proof.
  induction x as [|c q IH]; intros H.
  - simpl. reflexivity.
  - simpl in H; apply andb_true_iff in H as [H1 H2].
    apply negb_true_iff in H1.
    cbn [app split_nl]; rewrite H1, IH; auto.
Qed.

(** Splitting what was joined gives the lines back. *)
Lemma split_join ls :
  ls <> [] -> forallb noLF ls = true -> split_nl (join_nl ls) = ls.
Proof.
  induction ls as [|x r IH]; [congruence|]; intros _ H.
  simpl in H; apply andb_true_iff in H as [H1 H2].
  destruct r as [|y r'].
  - simpl; now apply split_nl_line.
  - change (join_nl (x :: y :: r')) with (x ++ LF :: join_nl (y :: r')).
    rewrite split_nl_cons by assumption.
    rewrite IH; [reflexivity|discriminate|assumption].
Qed.

(** Joining the lines of a text gives the text back. *)
Lemma join_split s : join_nl (split_nl s) = s.
Proof.
  induction s as [|c r IH]; [reflexivity|].
  cbn [split_nl].
  destruct (N.eqb c LF) eqn:E.
  - apply N.eqb_eq in E; subst c.
    destruct (split_nl r) as [|h t] eqn:S; [now apply split_nl_nonempty in S|].
    change (join_nl ([] :: h :: t)) with (LF :: join_nl (h :: t)).
    now rewrite IH.
  - destruct (split_nl r) as [|h t] eqn:S; [now apply split_nl_nonempty in S|].
    destruct t as [|h' t'].
    + simpl in *; now rewrite IH.
    + change (join_nl ((c :: h) :: h' :: t')) with (c :: (h ++ LF :: join_nl (h' :: t'))).
      change (join_nl (h :: h' :: t')) with (h ++ LF :: join_nl (h' :: t')) in IH.
      now rewrite IH.
Qed.

Lemma split_nl_noLF s : forallb noLF (split_nl s) = true.
Proof.
  induction s as [|c r IH]; [reflexivity|].
  cbn [split_nl].
  destruct (N.eqb c LF) eqn:E; [exact IH|].
  destruct (split_nl r) as [|h t]; simpl in *; rewrite E; auto.
Qed.

Lemma nth_error_middle {A} (done : list A) x rest :
  nth_error (done ++ x :: rest) (length done) = Some x.
Proof. induction done; simpl; auto. Qed.

Lemma nth_error_past {A} (l : list A) : nth_error l (length l) = None.
Proof. apply nth_error_None; lia. Qed.

Lemma flatLine_step rec f done line rest props proto :
  flatLine line = true ->
  whileLoop rec (S f) (done ++ line :: rest) (length done) (VObj props proto) =
  whileLoop rec f (done ++ line :: rest) (S (length done)) (VObj (store props line) proto).
Proof.
  intros F; unfold flatLine, store in *.
  destruct (lineEntry line) as [[key val]|] eqn:E.
  - apply andb_true_iff in F as [F O]; apply andb_true_iff in F as [B N].
    apply negb_true_iff in B, N, O. apply str_eqb_neq in N.
    rewrite (loop_inline rec _ f (length done) (VObj props proto) line key val
               (nth_error_middle done line rest) E B).
    rewrite nextIndex_moves, ob_set_plain; auto.
    destruct (inlineValue_cases val) as [[s I]|[[b I]|(j & J & I & S & Oj)]];
      rewrite I in *; try discriminate. congruence.
  - apply loop_skip with (line := line); auto using nth_error_middle.
Qed.

(** A run of lines that are all dealt with in one iteration each: the loop
    returns, and what it returns is the lines stored one after the other. *)
Lemma flat_block rec ls :
  forall done props proto fuel,
    forallb flatLine ls = true -> length ls < fuel ->
    whileLoop rec fuel (done ++ ls) (length done) (VObj props proto) =
    Some (VObj (fold_left store ls props) proto).
Proof.
  induction ls as [|line rest IH]; intros done props proto fuel F L.
  - destruct fuel as [|f]; [simpl in L; lia|].
    rewrite app_nil_r; apply loop_end, nth_error_past.
  - simpl in F; apply andb_true_iff in F as [F1 F2].
    destruct fuel as [|f]; [simpl in L; lia|].
    rewrite flatLine_step by assumption.
    replace (done ++ line :: rest) with ((done ++ [line]) ++ rest)
      by now rewrite <- app_assoc.
    replace (S (length done)) with (length (done ++ [line]))
      by (rewrite length_app; simpl; lia).
    apply IH; [assumption|simpl in L; lia].
Qed.

Lemma parseYamlBlock_flat text fuel :
  forallb flatLine (split_nl text) = true ->
  length (split_nl text) + 1 < fuel ->
  parseYamlBlock fuel text = Some (VObj (fold_left store (split_nl text) []) None).
Proof.
  intros F L; destruct fuel as [|f]; [lia|].
  cbn [parseYamlBlock].
  apply (flat_block _ (split_nl text) [] [] None f F); lia.
Qed.

(* ================================================================== *)
(** ** Claim on the round trip of mappings of strings *)
(* ================================================================== *)

Lemma assoc_none k props : assoc k props = None <-> ~ In k (map fst props).
Proof.
  induction props as [|[k' v] r IH]; simpl; [tauto|].
  destruct (str_eqb k k') eqn:E.
  - apply str_eqb_eq in E; subst; split; [discriminate|tauto].
  - apply str_eqb_neq in E; rewrite IH; split; [intros H [H'|H']; congruence|tauto].
Qed.

Lemma put_fresh k v props : assoc k props = None -> put k v props = props ++ [(k, v)].
Proof.
  induction props as [|[k' v'] r IH]; simpl; [reflexivity|].
  destruct (str_eqb k k'); [discriminate|]; intros H; now rewrite IH.
Qed.


Lemma fold_store_entries es :
  forallb goodEntry es = true ->
  forall props,
    fold_left store (map entryLine es) props =
    fold_left (fun p e => put (fst e) (VStr (snd e)) p) es props.
Proof.
  induction es as [|e r IH]; intros G props; [reflexivity|].
  simpl in G; apply andb_true_iff in G as [G1 G2].
  cbn [map fold_left].
  destruct (flatLine_entryLine e G1) as [_ S]; rewrite S; now apply IH.
Qed.

Lemma fold_put_fresh (es : list (jsstring * jsstring)) :
  forall props,
    NoDup (map fst props ++ map fst es) ->
    fold_left (fun p e => put (fst e) (VStr (snd e)) p) es props =
    props ++ map (fun e => (fst e, VStr (snd e))) es.
Proof.
  induction es as [|e r IH]; intros props N; simpl; [now rewrite app_nil_r|].
  rewrite put_fresh.
  - rewrite IH; [now rewrite <- app_assoc|].
    rewrite map_app; simpl; rewrite <- app_assoc; exact N.
  - apply assoc_none; simpl in N.
    apply NoDup_remove_2 in N; intros I; apply N, in_or_app; auto.
Qed.

Lemma isKeyChar_not_LF c : isKeyChar c = true -> N.eqb c LF = false.
Proof. intros H; apply isKeyChar_range in H; apply N.eqb_neq; unfold LF; lia. Qed.

Lemma notLineTerminator_not_LF c : notLineTerminator c = true -> N.eqb c LF = false.
Proof.
  unfold notLineTerminator, isLineTerminator; rewrite negb_true_iff, !orb_false_iff.
  intros [[[H _] _] _]; exact H.
Qed.

Lemma forallb_impl {A} (p q : A -> bool) l :
  (forall x, p x = true -> q x = true) -> forallb p l = true -> forallb q l = true.
Proof.
  intros I; induction l; simpl; [auto|].
  rewrite !andb_true_iff; intros [H1 H2]; auto.
Qed.

Lemma forallb_map_impl {A B} (f : A -> B) (p : A -> bool) (q : B -> bool) l :
  (forall x, p x = true -> q (f x) = true) ->
  forallb p l = true -> forallb q (map f l) = true.
Proof.
  intros I; induction l; simpl; [auto|].
  rewrite !andb_true_iff; intros [H1 H2]; auto.
Qed.

Lemma noLF_entryLine e : goodEntry e = true -> noLF (entryLine e) = true.
Proof.
  unfold goodEntry; rewrite !andb_true_iff; intros [[K _] P].
  destruct (isKey_inv _ K) as (_ & _ & _ & _ & Hk).
  destruct (isPlain_inv _ P) as (_ & L & _ & _).
  unfold noLF, entryLine. rewrite forallb_app. cbn [forallb].
  apply andb_true_iff; split.
  - eapply forallb_impl; [|exact Hk].
    intros x Hx; now rewrite isKeyChar_not_LF.
  - change (negb (N.eqb COLON LF)) with true.
    change (negb (N.eqb SPACE LF)) with true. cbn [andb].
    eapply forallb_impl; [|exact L].
    intros x Hx; now rewrite notLineTerminator_not_LF.
Qed.

Lemma slice_shorter (v : jsstring) : v <> [] -> length (slice 1 (-1) v) < length v.
Proof.
  intros N. unfold slice. rewrite length_firstn, length_skipn.
  unfold sliceIndex. change (1 <? 0)%Z with false. cbv iota.
  destruct v as [|c r]; [congruence|]. cbn [length]. lia.
Qed.

(** For a value on one line that [trim] leaves as it is and that is not a
    block marker, being plain is the same as being stored unchanged. *)
Lemma isPlain_exact (v : jsstring) :
  isTrimmed v = true -> forallb notLineTerminator v = true -> isBlockMarker v = false ->
  (inlineValue v = VStr v <-> isPlain v = true).
Proof.
  intros T L B; split; [|intros P; now apply isPlain_inv].
  intros H. unfold isPlain. rewrite T, L, B. cbn [andb negb].
  destruct (isTrimmed_inv v T) as (c & r & _ & _ & E & _).
  assert (NE : v <> []) by (rewrite E; discriminate).
  unfold isJsonText, isQuoted. unfold inlineValue in H.
  destruct (startsWith (jstr "{") v) eqn:O.
  { destruct (JSON_parse v) as [j|] eqn:J.
    - apply (JSON_parse_brace _ _ O) in J. subst j. discriminate.
    - change (jstr "{") with [123%N] in O.
      apply startsWith_single in O as [q ->]. reflexivity. }
  destruct (startsWith (jstr "[") v) eqn:A.
  { destruct (JSON_parse v) as [j|] eqn:J.
    - apply (JSON_parse_bracket _ _ A) in J. subst j. discriminate.
    - change (jstr "[") with [91%N] in A.
      apply startsWith_single in A as [q ->]. reflexivity. }
  cbn [orb andb negb].
  destruct (startsWith [QUOTE] v && endsWith [QUOTE] v).
  { inversion H as [H']. pose proof (slice_shorter v NE) as S. rewrite H' in S. lia. }
  destruct (startsWith [APOS] v && endsWith [APOS] v).
  { inversion H as [H']. pose proof (slice_shorter v NE) as S. rewrite H' in S. lia. }
  destruct (str_eqb v (jstr "true")); [discriminate|].
  destruct (str_eqb v (jstr "false")); [discriminate|]. reflexivity.
Qed.

(** C4 (round trip), amended.  A mapping of strings whose keys are
    pairwise different, are keys of the key pattern and are not [__proto__],
    and whose values are plain is what [parseYamlBlock] returns on its
    text.  A value is plain when it is on one line, is not empty and has no
    white space at either end, is not a block marker, is not a text that
    starts an object or an array and that [JSON.parse] accepts, is not in
    quotes, and is not one of the two boolean words; a value that starts
    an object or an array and that [JSON.parse] rejects is plain.  Among
    the values on one line that [trim] leaves as they are and that are not
    block markers, the plain ones are exactly those a line stores
    unchanged.  For every mapping of strings, as the claim has it, the
    round trip fails: see the counterexample below. *)
Theorem C4_round_trip_of_plain_mappings :
  (forall entries : list (jsstring * jsstring),
      NoDup (map fst entries) -> forallb goodEntry entries = true ->
      returns (serialize entries) (stringMapping entries))
  /\ (forall v : jsstring,
        isTrimmed v = true -> forallb notLineTerminator v = true ->
        isBlockMarker v = false ->
        (inlineValue v = VStr v <-> isPlain v = true)).
Proof.
  split; [|exact isPlain_exact].
  intros entries N G.
  destruct entries as [|e r]; [exists 3; reflexivity|].
  remember (e :: r) as entries eqn:E.
  assert (L : split_nl (serialize entries) = map entryLine entries).
  { apply split_join.
    - rewrite E; discriminate.
    - eapply forallb_map_impl; [|exact G].
      intros x; apply noLF_entryLine. }
  exists (length (map entryLine entries) + 2).
  rewrite parseYamlBlock_flat; rewrite L; [| |lia].
  - rewrite fold_store_entries, fold_put_fresh by assumption. reflexivity.
  - eapply forallb_map_impl; [|exact G].
    intros x Hx; apply flatLine_entryLine, Hx.
Qed.

(** C4, at the mapping of the spec's example with one more entry, whose
    value starts an array and is not JSON. *)
Lemma C4_witness_name_and_version :
  returns (jstr "name: hello-world\nversion: 1.0.0\ntitle: [WIP] fix {x")
    (VObj [(jstr "name", VStr (jstr "hello-world"));
           (jstr "version", VStr (jstr "1.0.0"));
           (jstr "title", VStr (jstr "[WIP] fix {x"))] None).
Proof.
  apply (proj1 C4_round_trip_of_plain_mappings
           [(jstr "name", jstr "hello-world"); (jstr "version", jstr "1.0.0");
            (jstr "title", jstr "[WIP] fix {x")]).
  - repeat constructor; simpl; intuition discriminate.
  - vm_compute; reflexivity.
Defined.

(** C4 as stated fails: the mapping whose one entry has the string
    [true] as its value is written as the line [flag: true], which is read
    back as the boolean. *)
Lemma C4_counterexample_true_is_read_as_boolean :
  returns (serialize [(jstr "flag", jstr "true")]) (VObj [(jstr "flag", VBool true)] None)
  /\ VObj [(jstr "flag", VBool true)] None <> stringMapping [(jstr "flag", jstr "true")].
Proof.
  split; [exists 5; vm_compute; reflexivity|discriminate].
Qed.

(* ================================================================== *)
(** ** Keys are pairwise different *)
(* ================================================================== *)














(** The value of a key after a run of lines is the one of the last line
    that has the key. *)
Lemma fold_store_other k post :
  (forall l key val, In l post -> lineEntry l = Some (key, val) -> key <> k) ->
  forall props, assoc k (fold_left store post props) = assoc k props.
Proof.
  induction post as [|l r IH]; intros D props; [reflexivity|].
  cbn [fold_left]. rewrite IH by (intros; eapply D; [right|]; eauto).
  unfold store. destruct (lineEntry l) as [[key val]|] eqn:E; [|reflexivity].
  apply assoc_put_other. intros ->. eapply D; [left| |]; eauto.
Qed.


(* ================================================================== *)
(** ** The frontmatter pattern; claims on the delimiters *)
(* ================================================================== *)

Lemma lazyUntilClose_eq s :
  lazyUntilClose s =
  if closesAt s then Some []
  else match s with
       | [] => None
       | c :: r => match lazyUntilClose r with
                   | Some g => Some (c :: g)
                   | None => None
                   end
       end.
Proof. destruct s; reflexivity. Qed.

Lemma lazyUntilClose_some s :
  forall g, lazyUntilClose s = Some g ->
  exists tail, s = g ++ tail /\ closesAt tail = true /\
    forall pre post, g = pre ++ post -> post <> [] -> closesAt (post ++ tail) = false.
Proof.
  induction s as [|c r IH]; intros g; rewrite lazyUntilClose_eq.
  - destruct (closesAt []) eqn:C; [|discriminate].
    intros H; inversion H; subst. exists []; split; [reflexivity|split; [assumption|]].
    intros pre post E N; destruct pre, post; try discriminate; congruence.
  - destruct (closesAt (c :: r)) eqn:C.
    + intros H; inversion H; subst.
      exists (c :: r); split; [reflexivity|split; [assumption|]].
      intros pre post E N; destruct pre, post; try discriminate; congruence.
    + destruct (lazyUntilClose r) as [g'|]; [|discriminate].
      intros H; inversion H; subst.
      destruct (IH g' eq_refl) as (tail & E & T & M).
      exists tail; split; [now rewrite E|split; [assumption|]].
      intros pre post E' N. destruct pre as [|x pre].
      * simpl in E'; subst post. simpl. now rewrite <- E.
      * injection E' as _ E'. now apply (M pre post).
Qed.

Lemma lazyUntilClose_shortest g :
  forall tail, closesAt tail = true ->
  (forall pre post, g = pre ++ post -> post <> [] -> closesAt (post ++ tail) = false) ->
  lazyUntilClose (g ++ tail) = Some g.
Proof.
  induction g as [|c g IH]; intros tail T M; rewrite lazyUntilClose_eq.
  - simpl; now rewrite T.
  - rewrite (M [] (c :: g) eq_refl) by discriminate.
    cbn [app]. rewrite IH; auto.
    intros pre post E N; apply (M (c :: pre) post); [now rewrite E|assumption].
Qed.

Lemma lazyUntilClose_none s : lazyUntilClose s = None <-> ~ closesLater s.
Proof.
  split.
  - induction s as [|c r IH]; rewrite lazyUntilClose_eq.
    + destruct (closesAt []) eqn:C; [discriminate|].
      intros _ (pre & post & E & T).
      destruct pre, post; try discriminate; congruence.
    + destruct (closesAt (c :: r)) eqn:C; [discriminate|].
      destruct (lazyUntilClose r) as [g|]; [discriminate|].
      intros _ (pre & post & E & T). destruct pre as [|x pre].
      * simpl in E; subst post; congruence.
      * inversion E; subst. apply IH; [reflexivity|]. exists pre, post; auto.
  - intros N; destruct (lazyUntilClose s) as [g|] eqn:L; [|reflexivity].
    destruct (lazyUntilClose_some s g L) as (tail & E & T & _).
    exfalso; apply N; exists g, tail; auto.
Qed.

Lemma matchFrontmatter_opens content rest :
  opens content rest -> matchFrontmatter content = lazyUntilClose rest.
Proof. intros [->| ->]; reflexivity. Qed.

Lemma matchFrontmatter_some content block :
  matchFrontmatter content = Some block ->
  exists rest, opens content rest /\ lazyUntilClose rest = Some block.
Proof.
  unfold matchFrontmatter, opens.
  destruct content as [|d1 [|d2 [|d3 r]]]; try discriminate.
  destruct (N.eqb d1 DASH) eqn:E1; [|discriminate].
  destruct (N.eqb d2 DASH) eqn:E2; [|discriminate].
  destruct (N.eqb d3 DASH) eqn:E3; [|discriminate].
  apply N.eqb_eq in E1, E2, E3; subst. cbn [andb].
  destruct r as [|c1 r1]; [discriminate|].
  destruct (N.eqb c1 LF) eqn:F1.
  { apply N.eqb_eq in F1; subst. intros H; exists r1; split; [left; reflexivity|exact H]. }
  destruct (N.eqb c1 CR) eqn:F2; [|discriminate].
  destruct r1 as [|c2 r2]; [discriminate|].
  destruct (N.eqb c2 LF) eqn:F3; [|discriminate].
  apply N.eqb_eq in F2, F3; subst.
  intros H; exists r2; split; [right; reflexivity|exact H].
Qed.

Lemma opens_startsWith content rest :
  opens content rest -> startsWith (jstr "---") content = true.
Proof. intros [->| ->]; reflexivity. Qed.

(** C3 (the null result), amended.  [parseFrontmatter] returns [null]
    exactly when the pattern of line 34 does not match, that is, unless the
    content opens with three dashes and a line break and a line break
    followed by three dashes comes somewhere after that opening.  So it is
    [null] for a content that does not start with three dashes and for one
    that opens well and has no closing part; and when both parts are there,
    whatever the call returns is a mapping.  The closing part needs a line
    break of its own: see the counterexample below. *)
Theorem C3_null_exactly_when_the_pattern_fails :
  (forall content,
      matchFrontmatter content = None <->
      ~ exists rest, opens content rest /\ closesLater rest)
  /\ (forall fuel content,
        parseFrontmatter fuel content = Some VNull <-> matchFrontmatter content = None)
  /\ (forall fuel content,
        startsWith (jstr "---") content = false ->
        parseFrontmatter fuel content = Some VNull)
  /\ (forall fuel content rest,
        opens content rest -> ~ closesLater rest ->
        parseFrontmatter fuel content = Some VNull)
  /\ (forall fuel content rest v,
        opens content rest -> closesLater rest ->
        parseFrontmatter fuel content = Some v -> isObjectValue v = true).
Proof.
  assert (A : forall content,
             matchFrontmatter content = None <->
             ~ exists rest, opens content rest /\ closesLater rest).
  { intros content; split.
    - intros M (rest & O & C).
      rewrite (matchFrontmatter_opens _ _ O) in M.
      now apply lazyUntilClose_none in M.
    - intros N; destruct (matchFrontmatter content) as [block|] eqn:M; [|reflexivity].
      destruct (matchFrontmatter_some _ _ M) as (rest & O & L).
      exfalso; apply N; exists rest; split; [assumption|].
      destruct (lazyUntilClose_some _ _ L) as (tail & E & T & _).
      exists block, tail; auto. }
  assert (B : forall fuel content,
             parseFrontmatter fuel content = Some VNull <->
             matchFrontmatter content = None).
  { intros fuel content; unfold parseFrontmatter.
    destruct (matchFrontmatter content) as [block|]; [|tauto].
    split; [|discriminate].
    intros H; apply parseYamlBlock_object in H; discriminate. }
  split; [exact A|]. split; [exact B|]. split; [|split].
  - intros fuel content S. apply B, A.
    intros (rest & O & _). apply opens_startsWith in O; congruence.
  - intros fuel content rest O N. apply B.
    rewrite (matchFrontmatter_opens _ _ O). now apply lazyUntilClose_none.
  - intros fuel content rest v O C.
    unfold parseFrontmatter. rewrite (matchFrontmatter_opens _ _ O).
    destruct (lazyUntilClose rest) as [block|] eqn:L.
    + apply parseYamlBlock_object.
    + apply lazyUntilClose_none in L; contradiction.
Qed.

(** C3 as stated fails: a document whose first two lines are both a line
    of exactly three dashes has both delimiters, with the empty block
    between them, and the result is [null], not the empty mapping. *)
Lemma C3_counterexample_empty_frontmatter :
  blockByLines (jstr "---\n---\nbody\n") = Some []
  /\ matchFrontmatter (jstr "---\n---\nbody\n") = None
  /\ parseFrontmatter 5 (jstr "---\n---\nbody\n") = Some VNull.
Proof. repeat split; vm_compute; reflexivity. Qed.

(** C5 (the extracted block), amended.  The block is the shortest text
    after the opening (three dashes and a line break at the start of the
    content) that is followed by a line break and three dashes.  What
    follows those three dashes on their line is not looked at: a closing
    line only has to start with three dashes. *)
Theorem C5_block_is_shortest_text_before_a_closing :
  forall content block,
    matchFrontmatter content = Some block <->
    exists rest tail,
      opens content rest /\ rest = block ++ tail /\ closesAt tail = true /\
      forall pre post, block = pre ++ post -> post <> [] ->
                       closesAt (post ++ tail) = false.
Proof.
  intros content block; split.
  - intros M. destruct (matchFrontmatter_some _ _ M) as (rest & O & L).
    destruct (lazyUntilClose_some _ _ L) as (tail & E & T & Min).
    exists rest, tail; auto.
  - intros (rest & tail & O & E & T & Min).
    rewrite (matchFrontmatter_opens _ _ O), E.
    now apply lazyUntilClose_shortest.
Qed.

(** C5 as stated fails: a line of four dashes ends the block, although
    the next line of exactly three dashes comes later; the entry after the
    line of four dashes is not part of the frontmatter. *)
Lemma C5_counterexample_longer_dash_line_closes :
  matchFrontmatter (jstr "---\na: 1\n----\nb: 2\n---\nbody\n") = Some (jstr "a: 1")
  /\ blockByLines (jstr "---\na: 1\n----\nb: 2\n---\nbody\n") = Some (jstr "a: 1\n----\nb: 2")
  /\ parseFrontmatter 5 (jstr "---\na: 1\n----\nb: 2\n---\nbody\n")
     = Some (VObj [(jstr "a", VStr (jstr "1"))] None).
Proof. repeat split; vm_compute; reflexivity. Qed.

(* ================================================================== *)
(** ** Key lines *)
(* ================================================================== *)

Lemma lineEntry_key_only key : isKey key = true -> lineEntry (key ++ [COLON]) = Some (key, []).
Proof.
  intros K. change (key ++ [COLON]) with (key ++ COLON :: [] ++ []).
  rewrite lineEntry_key_value; auto.
Qed.

Lemma noLF_key key : isKey key = true -> noLF key = true.
Proof.
  intros K; destruct (isKey_inv _ K) as (_ & _ & _ & _ & Hk).
  eapply forallb_impl; [|exact Hk]. intros x Hx; now rewrite isKeyChar_not_LF.
Qed.

Lemma search_nonspace_key key r : isKey key = true -> search_nonspace (key ++ r) = 0%Z.
Proof.
  intros K; destruct (isKey_inv _ K) as (c & q & -> & Hc & _).
  apply search_nonspace_head; now apply isKeyChar_not_space.
Qed.

(* ================================================================== *)
(** ** Claims on keys and on a key without children *)
(* ================================================================== *)











Lemma collectChildren_none blanks rest :
  forallb isBlank blanks = true ->
  forall i indent,
    (rest = [] \/
     exists l r, rest = l :: r /\ isBlank l = false /\ (search_nonspace l <= indent)%Z) ->
    collectChildren (blanks ++ rest) i indent = ([], i + length blanks).
Proof.
  induction blanks as [|b q IH]; intros B i indent R.
  - cbn [app length]. rewrite Nat.add_0_r.
    destruct R as [->|(l & r & -> & Bl & I)]; [reflexivity|].
    cbn [collectChildren]. rewrite Bl.
    apply Z.leb_le in I; now rewrite I.
  - cbn [forallb] in B; apply andb_true_iff in B as [B1 B2].
    cbn [app collectChildren length]. rewrite B1, IH by assumption.
    f_equal; lia.
Qed.

Lemma parseYamlBlock_empty f : parseYamlBlock (3 + f) [] = Some emptyObject.
Proof. reflexivity. Qed.

(** C9 (a key without children).  When the inner loop collects no child
    line for a key line whose value is empty or a block marker, the key
    gets the empty mapping and the loop goes on at the index the inner loop
    stopped at; no child line is collected when, after blank lines, the
    block ends or a line comes whose indentation is at most the one of the
    key line. *)
Theorem C9_key_without_children_is_empty_mapping :
  (forall fuel f lines i line key val j props proto,
      nth_error lines i = Some line -> lineEntry line = Some (key, val) ->
      isBlockMarker val = true -> key <> PROTO ->
      collectChildren (skipn (S i) lines) (S i) (search_nonspace line) = ([], j) ->
      whileLoop (parseYamlBlock (3 + fuel)) (S f) lines i (VObj props proto) =
      whileLoop (parseYamlBlock (3 + fuel)) f lines j
        (VObj (put key emptyObject props) proto))
  /\ (forall blanks rest i indent,
        forallb isBlank blanks = true ->
        (rest = [] \/
         exists l r, rest = l :: r /\ isBlank l = false /\
                     (search_nonspace l <= indent)%Z) ->
        collectChildren (blanks ++ rest) i indent = ([], i + length blanks))
  /\ returns (jstr "a:\nb: 1\n")
       (VObj [(jstr "a", emptyObject); (jstr "b", VStr (jstr "1"))] None)
  /\ returns (jstr "a:\n\n\nb: 1\n")
       (VObj [(jstr "a", emptyObject); (jstr "b", VStr (jstr "1"))] None)
  /\ returns (jstr "a:\n") (VObj [(jstr "a", emptyObject)] None).
Proof.
  split; [|split; [intros; now apply collectChildren_none|]].
  - intros fuel f lines i line key val j props proto H E B N C.
    rewrite (loop_block _ lines f i (VObj props proto) line key val [] j H E B C).
    change (blockValue (parseYamlBlock (3 + fuel)) [])
      with (parseYamlBlock (3 + fuel) []).
    rewrite parseYamlBlock_empty.
    unfold emptyObject at 1 2.
    rewrite nextIndex_stays, ob_set_plain by (auto; reflexivity).
    reflexivity.
  - repeat split; exists 6; vm_compute; reflexivity.
Qed.

(* ================================================================== *)
(** ** [JSON.parse] always ends within its recursion bound *)
(* ================================================================== *)

Lemma dropWhile_length p (s : jsstring) : length (dropWhile p s) <= length s.
Proof.
  induction s as [|c r IH]; cbn [dropWhile length]; [lia|].
  destruct (p c); cbn [length]; lia.
Qed.

Lemma skip_ws_cons s c r : skip_ws s = c :: r -> length r < length s.
Proof.
  intros H. pose proof (dropWhile_length isJsonWs s) as L.
  unfold skip_ws in H. rewrite H in L. cbn [length] in L. lia.
Qed.

Lemma jchars_length s t rest : jchars s = Some (t, rest) -> length rest < length s.
Proof.
  revert t rest. induction s as [s IH] using (well_founded_induction
    (Wf_nat.well_founded_ltof _ (@length char))).
  unfold Wf_nat.ltof in IH. intros t rest.
  destruct s as [|c r]; [discriminate|]. cbn [jchars].
  destruct (N.eqb c 34); [intros H; inversion H; subst; cbn; lia|].
  destruct (N.eqb c 92).
  - destruct r as [|e r1]; [discriminate|].
    destruct (N.eqb e 117).
    + destruct r1 as [|h1 [|h2 [|h3 [|h4 r2]]]]; try discriminate.
      destruct (hex4 h1 h2 h3 h4); [|discriminate].
      destruct (jchars r2) as [[t' rest']|] eqn:J; [|discriminate].
      intros H; inversion H; subst.
      apply IH in J; cbn [length] in *; lia.
    + destruct (escape e); [|discriminate].
      destruct (jchars r1) as [[t' rest']|] eqn:J; [|discriminate].
      intros H; inversion H; subst.
      apply IH in J; cbn [length] in *; lia.
  - destruct (N.ltb c 32); [discriminate|].
    destruct (jchars r) as [[t' rest']|] eqn:J; [|discriminate].
    intros H; inversion H; subst.
    apply IH in J; cbn [length] in *; lia.
Qed.

Lemma jnumber_length s n rest : jnumber s = Some (n, rest) -> length rest < length s.
Proof.
  unfold jnumber.
  assert (I : forall s0 i s1, jint s0 = Some (i, s1) -> length s1 < length s0).
  { intros s0 i s1. unfold jint. destruct s0 as [|c r]; [discriminate|].
    destruct (N.eqb c 48); [intros H; inversion H; subst; cbn; lia|].
    destruct (isDigit c); [|discriminate].
    intros H; inversion H; subst.
    pose proof (dropWhile_length isDigit r). cbn [length]. lia. }
  assert (D : forall s0 d s1, jdigits1 s0 = Some (d, s1) -> length s1 <= length s0).
  { intros s0 d s1. unfold jdigits1. destruct (takeWhile isDigit s0); [discriminate|].
    intros H; inversion H; subst. apply dropWhile_length. }
  assert (Fr : forall s0 f s1, jfrac s0 = Some (f, s1) -> length s1 <= length s0).
  { intros s0 f s1. unfold jfrac. destruct s0 as [|c r]; [intros H; inversion H; subst; lia|].
    destruct (N.eqb c 46); [|intros H; inversion H; subst; lia].
    destruct (jdigits1 r) as [[d rest']|] eqn:J; [|discriminate].
    intros H; inversion H; subst. apply D in J. cbn [length]. lia. }
  assert (Ex : forall s0 e s1, jexp s0 = Some (e, s1) -> length s1 <= length s0).
  { intros s0 e s1. unfold jexp. destruct s0 as [|c r]; [intros H; inversion H; subst; lia|].
    destruct (N.eqb c 101 || N.eqb c 69); [|intros H; inversion H; subst; lia].
    destruct r as [|g r1]; [discriminate|].
    destruct (N.eqb g 43 || N.eqb g 45).
    - destruct (jdigits1 r1) as [[d rest']|] eqn:J; [|discriminate].
      intros H; inversion H; subst. apply D in J. cbn [length]. lia.
    - destruct (jdigits1 (g :: r1)) as [[d rest']|] eqn:J; [|discriminate].
      intros H; inversion H; subst. apply D in J. cbn [length] in *. lia. }
  destruct s as [|c r].
  - destruct (jint []) as [[i s1]|] eqn:J; [|discriminate]. apply I in J. cbn in J. lia.
  - destruct (N.eqb c 45).
    + destruct (jint r) as [[i s1]|] eqn:J; [|discriminate].
      destruct (jfrac s1) as [[f s2]|] eqn:F; [|discriminate].
      destruct (jexp s2) as [[e s3]|] eqn:E; [|discriminate].
      intros H; inversion H; subst.
      apply I in J. apply Fr in F. apply Ex in E. cbn [length]. lia.
    + destruct (jint (c :: r)) as [[i s1]|] eqn:J; [|discriminate].
      destruct (jfrac s1) as [[f s2]|] eqn:F; [|discriminate].
      destruct (jexp s2) as [[e s3]|] eqn:E; [|discriminate].
      intros H; inversion H; subst.
      apply I in J. apply Fr in F. apply Ex in E. lia.
Qed.

Lemma startsWith_length p (s : jsstring) : startsWith p s = true -> length p <= length s.
Proof.
  revert s; induction p as [|x p IH]; intros s; [cbn; lia|].
  destruct s as [|y s]; [discriminate|]. cbn [startsWith length].
  intros H; apply andb_true_iff in H as [_ H]. apply IH in H. lia.
Qed.

(** Every grammar function that succeeds has read something. *)
Lemma json_progress fuel :
  (forall s v rest, jvalue fuel s = JOk v rest -> length rest < length s)
  /\ (forall s acc v rest, jelements fuel s acc = JOk v rest -> length rest < length s)
  /\ (forall s props v rest, jmembers fuel s props = JOk v rest -> length rest < length s).
Proof.
  induction fuel as [|f (IHv & IHe & IHm)]; [repeat split; discriminate|].
  repeat split.
  - intros s v rest; cbn [jvalue].
    destruct (skip_ws s) as [|c r] eqn:W; [discriminate|].
    apply skip_ws_cons in W.
    destruct (N.eqb c 123).
    { destruct (skip_ws r) as [|c' r'] eqn:W'; [discriminate|].
      apply skip_ws_cons in W'.
      destruct (N.eqb c' 125); [intros H; inversion H; subst; lia|].
      intros H; apply IHm in H; lia. }
    destruct (N.eqb c 91).
    { destruct (skip_ws r) as [|c' r'] eqn:W'; [discriminate|].
      apply skip_ws_cons in W'.
      destruct (N.eqb c' 93); [intros H; inversion H; subst; lia|].
      intros H; apply IHe in H; lia. }
    destruct (N.eqb c 34).
    { destruct (jchars r) as [[t q]|] eqn:J; [|discriminate].
      apply jchars_length in J. intros H; inversion H; subst; lia. }
    destruct (startsWith (jstr "true") (c :: r)) eqn:T.
    { intros H. assert (R : rest = skipn 4 (c :: r)) by (inversion H; reflexivity).
      rewrite R, length_skipn. apply startsWith_length in T. cbn [length] in *. lia. }
    destruct (startsWith (jstr "false") (c :: r)) eqn:Fa.
    { intros H. assert (R : rest = skipn 5 (c :: r)) by (inversion H; reflexivity).
      rewrite R, length_skipn. apply startsWith_length in Fa. cbn [length] in *. lia. }
    destruct (startsWith (jstr "null") (c :: r)) eqn:Nu.
    { intros H. assert (R : rest = skipn 4 (c :: r)) by (inversion H; reflexivity).
      rewrite R, length_skipn. apply startsWith_length in Nu. cbn [length] in *. lia. }
    destruct (jnumber (c :: r)) as [[n q]|] eqn:J; [|discriminate].
    apply jnumber_length in J. intros H; inversion H; subst. cbn [length] in *. lia.
  - intros s acc v rest; cbn [jelements].
    destruct (jvalue f s) as [v0 r| |] eqn:V; try discriminate.
    apply IHv in V.
    destruct (skip_ws r) as [|c r'] eqn:W; [discriminate|].
    apply skip_ws_cons in W.
    destruct (N.eqb c 44); [intros H; apply IHe in H; lia|].
    destruct (N.eqb c 93); [|discriminate].
    intros H; inversion H; subst. lia.
  - intros s props v rest; cbn [jmembers].
    destruct (skip_ws s) as [|c r] eqn:W; [discriminate|].
    apply skip_ws_cons in W.
    destruct (N.eqb c 34); [|discriminate].
    destruct (jchars r) as [[k r1]|] eqn:J; [|discriminate].
    apply jchars_length in J.
    destruct (skip_ws r1) as [|c1 r2] eqn:W1; [discriminate|].
    apply skip_ws_cons in W1.
    destruct (N.eqb c1 58); [|discriminate].
    destruct (jvalue f r2) as [v0 r3| |] eqn:V; try discriminate.
    apply IHv in V.
    destruct (skip_ws r3) as [|c3 r4] eqn:W3; [discriminate|].
    apply skip_ws_cons in W3.
    destruct (N.eqb c3 44); [intros H; apply IHm in H; lia|].
    destruct (N.eqb c3 125); [|discriminate].
    intros H; inversion H; subst. lia.
Qed.

(** The recursion bound of [JSON_parse] is never reached. *)
Lemma json_fuel fuel :
  (forall s, 2 * length s + 1 <= fuel -> jvalue fuel s <> JOutOfFuel)
  /\ (forall s acc, 2 * length s + 2 <= fuel -> jelements fuel s acc <> JOutOfFuel)
  /\ (forall s props, 2 * length s + 2 <= fuel -> jmembers fuel s props <> JOutOfFuel).
Proof.
  induction fuel as [|f (IHv & IHe & IHm)]; [repeat split; intros; lia|].
  destruct (json_progress f) as (Pv & Pe & Pm).
  repeat split.
  - intros s L; cbn [jvalue].
    destruct (skip_ws s) as [|c r] eqn:W; [discriminate|].
    apply skip_ws_cons in W.
    destruct (N.eqb c 123).
    { destruct (skip_ws r) as [|c' r'] eqn:W'; [discriminate|].
      destruct (N.eqb c' 125); [discriminate|]. apply IHm; lia. }
    destruct (N.eqb c 91).
    { destruct (skip_ws r) as [|c' r'] eqn:W'; [discriminate|].
      destruct (N.eqb c' 93); [discriminate|]. apply IHe; lia. }
    destruct (N.eqb c 34); [destruct (jchars r) as [[t q]|]; discriminate|].
    destruct (startsWith (jstr "true") (c :: r)); [discriminate|].
    destruct (startsWith (jstr "false") (c :: r)); [discriminate|].
    destruct (startsWith (jstr "null") (c :: r)); [discriminate|].
    destruct (jnumber (c :: r)) as [[n q]|]; discriminate.
  - intros s acc L; cbn [jelements].
    destruct (jvalue f s) as [v0 r| |] eqn:V.
    + apply Pv in V.
      destruct (skip_ws r) as [|c r'] eqn:W; [discriminate|].
      apply skip_ws_cons in W.
      destruct (N.eqb c 44); [apply IHe; lia|].
      destruct (N.eqb c 93); discriminate.
    + discriminate.
    + exfalso. apply (IHv s); [lia|assumption].
  - intros s props L; cbn [jmembers].
    destruct (skip_ws s) as [|c r] eqn:W; [discriminate|].
    apply skip_ws_cons in W.
    destruct (N.eqb c 34); [|discriminate].
    destruct (jchars r) as [[k r1]|] eqn:J; [|discriminate].
    apply jchars_length in J.
    destruct (skip_ws r1) as [|c1 r2] eqn:W1; [discriminate|].
    apply skip_ws_cons in W1.
    destruct (N.eqb c1 58); [|discriminate].
    destruct (jvalue f r2) as [v0 r3| |] eqn:V.
    + apply Pv in V.
      destruct (skip_ws r3) as [|c3 r4] eqn:W3; [discriminate|].
      apply skip_ws_cons in W3.
      destruct (N.eqb c3 44); [apply IHm; lia|].
      destruct (N.eqb c3 125); discriminate.
    + discriminate.
    + exfalso. apply (IHv r2); [lia|assumption].
Qed.

Lemma jvalue_fuel s : jvalue (2 * length s + 2) s <> JOutOfFuel.
Proof. apply (proj1 (json_fuel _)); lia. Qed.

(* ================================================================== *)
(** ** Which texts return *)
(* ================================================================== *)

(** Fewer iterations never give a result that more do not give. *)
Lemma whileLoop_none_less rec lines f f' i result :
  f <= f' -> whileLoop rec f' lines i result = None ->
  whileLoop rec f lines i result = None.
Proof.
  intros L N. destruct (whileLoop rec f lines i result) as [v|] eqn:E; [|reflexivity].
  rewrite (whileLoop_mono rec rec lines (fun _ _ H => H) f i result v E f' L) in N.
  discriminate.
Qed.

(** A run of lines dealt with one by one, with lines after it. *)
Lemma flat_prefix rec pre :
  forall done rest props proto f,
    forallb flatLine pre = true ->
    whileLoop rec (length pre + f) (done ++ pre ++ rest) (length done) (VObj props proto) =
    whileLoop rec f (done ++ pre ++ rest) (length done + length pre)
      (VObj (fold_left store pre props) proto).
Proof.
  induction pre as [|line pre IH]; intros done rest props proto f F.
  - cbn [length fold_left Nat.add]. now rewrite Nat.add_0_r.
  - cbn [forallb] in F; apply andb_true_iff in F as [F1 F2].
    cbn [length Nat.add app fold_left].
    rewrite flatLine_step by assumption.
    replace (done ++ line :: pre ++ rest) with ((done ++ [line]) ++ pre ++ rest)
      by now rewrite <- app_assoc.
    replace (S (length done)) with (length (done ++ [line]))
      by (rewrite length_app; simpl; lia).
    rewrite IH by assumption.
    rewrite length_app. cbn [length]. f_equal. lia.
Qed.

(** A text whose first lines are dealt with one by one and whose next
    line is never left does not return. *)
Lemma stuck_after_flat_prefix text pre line post :
  split_nl text = pre ++ line :: post ->
  forallb flatLine pre = true ->
  (forall rec fuel,
      whileLoop rec fuel (pre ++ line :: post) (length pre)
        (VObj (fold_left store pre []) None) = None) ->
  diverges text.
Proof.
  intros Sp F K fuel.
  destruct (parseYamlBlock fuel text) as [v|] eqn:E; [|reflexivity].
  apply parseYamlBlock_mono with (f' := S (length pre + fuel)) in E; [|lia].
  cbn [parseYamlBlock] in E. rewrite Sp in E.
  pose proof (flat_prefix (parseYamlBlock (length pre + fuel)) pre [] (line :: post)
                [] None fuel F) as P.
  cbn [app length Nat.add] in P. unfold emptyObject in E.
  rewrite P, K in E. discriminate.
Qed.

Lemma startsWith_json_not_marker val :
  startsWith (jstr "{") val || startsWith (jstr "[") val = true ->
  isBlockMarker val = false.
Proof.
  intros H; apply orb_true_iff in H as [H|H].
  - change (jstr "{") with [123%N] in H.
    apply startsWith_single in H as [r ->]. destruct r; reflexivity.
  - change (jstr "[") with [91%N] in H.
    apply startsWith_single in H as [r ->]. destruct r; reflexivity.
Qed.

Lemma flat_keys_not_proto pre :
  forallb flatLine pre = true ->
  forall props, assoc PROTO (fold_left store pre props) = assoc PROTO props.
Proof.
  intros F; apply fold_store_other.
  intros l key val I E ->.
  rewrite forallb_forall in F. apply F in I.
  unfold flatLine in I; rewrite E in I.
  rewrite str_eqb_refl in I. cbn in I.
  now rewrite andb_false_r in I.
Qed.

(** X2.  A text does not return when, after lines that are each dealt
    with in one iteration, it has an entry line whose key is not
    [__proto__] and whose value starts an object or an array that
    [JSON.parse] accepts: the index is never moved past that line. *)
Theorem inline_json_line_never_returns
  (text : jsstring) (pre : list jsstring) (line : jsstring) (post : list jsstring)
  (key val : jsstring) (j : value) :
  split_nl text = pre ++ line :: post ->
  forallb flatLine pre = true ->
  lineEntry line = Some (key, val) -> key <> PROTO ->
  startsWith (jstr "{") val || startsWith (jstr "[") val = true ->
  JSON_parse val = Some j ->
  diverges text.
Proof.
  intros Sp F E N J P.
  apply (stuck_after_flat_prefix text pre line post Sp F).
  intros rec fuel.
  apply (loop_stalls rec (pre ++ line :: post) (length pre) line key val);
    auto using nth_error_middle, startsWith_json_not_marker.
  destruct (inlineValue_cases val) as [[s I]|[[b I]|(j' & J' & I & _ & O)]].
  - rewrite (inlineValue_json_parsed val j J P) in I.
    destruct (orb_prop _ _ J) as [B|B].
    + apply (JSON_parse_brace _ _ B) in P. subst j; discriminate.
    + apply (JSON_parse_bracket _ _ B) in P. subst j; discriminate.
  - rewrite (inlineValue_json_parsed val j J P) in I.
    destruct (orb_prop _ _ J) as [B|B].
    + apply (JSON_parse_brace _ _ B) in P. subst j; discriminate.
    + apply (JSON_parse_bracket _ _ B) in P. subst j; discriminate.
  - now rewrite I.
Qed.

(** The theorem above at an instance. *)
Lemma inline_json_line_never_returns_witness :
  diverges (jstr "name: x\ntags: [\qa\q, \qb\q]\nversion: 1.0.0\n").
Proof.
  apply (inline_json_line_never_returns
           (jstr "name: x\ntags: [\qa\q, \qb\q]\nversion: 1.0.0\n")
           [jstr "name: x"] (jstr "tags: [\qa\q, \qb\q]") [jstr "version: 1.0.0"; []]
           (jstr "tags") (jstr "[\qa\q, \qb\q]")
           (VArr [VStr (jstr "a"); VStr (jstr "b")]));
    try (vm_compute; reflexivity).
  vm_compute; discriminate.
Defined.

(** X3.  A text does not return either when, after such lines, it has a
    line with the key [__proto__] and a string or a boolean as its value:
    the assignment of line 88 is ignored by the setter of [__proto__], what
    line 90 reads back is the prototype, an object, and the index stays. *)
Theorem proto_scalar_line_never_returns
  (text : jsstring) (pre : list jsstring) (line : jsstring) (post : list jsstring)
  (val : jsstring) :
  split_nl text = pre ++ line :: post ->
  forallb flatLine pre = true ->
  lineEntry line = Some (PROTO, val) -> isBlockMarker val = false ->
  isObjectValue (inlineValue val) || isArrayValue (inlineValue val) = false ->
  diverges text.
Proof.
  intros Sp F E B O.
  apply (stuck_after_flat_prefix text pre line post Sp F).
  intros rec fuel.
  assert (A : assoc PROTO (fold_left store pre []) = None)
    by now rewrite flat_keys_not_proto.
  generalize dependent (fold_left store pre []). intros props A.
  induction fuel as [|f IH]; [reflexivity|].
  rewrite (loop_inline rec _ f (length pre) (VObj props None) line PROTO val
             (nth_error_middle pre line post) E B).
  assert (Q : ob_set (VObj props None) PROTO (inlineValue val) = VObj props None).
  { unfold ob_set. rewrite A, str_eqb_refl. cbn [accessor_visible andb].
    destruct (inlineValue_cases val) as [[s I]|[[b I]|(j & _ & I & _ & Oj)]];
      rewrite I in *; try reflexivity.
    rewrite Oj in O; discriminate. }
  rewrite Q. unfold nextIndex, ob_get. rewrite A, str_eqb_refl. exact IH.
Qed.

(** The theorem above at an instance. *)
Lemma proto_scalar_line_never_returns_witness :
  diverges (jstr "name: x\n__proto__: y\n").
Proof.
  apply (proto_scalar_line_never_returns (jstr "name: x\n__proto__: y\n")
           [jstr "name: x"] (jstr "__proto__: y") [[]] (jstr "y"));
    vm_compute; reflexivity.
Defined.

(** X1.  A text all of whose lines are dealt with in one iteration each
    (blank lines, comments, lines the key-value pattern does not match, and
    entries with a string or a boolean on the line and a key other than
    [__proto__]) returns within one iteration per line, and the mapping it
    returns is the lines stored one after the other. *)
Theorem flat_text_returns (text : jsstring) :
  forallb flatLine (split_nl text) = true ->
  parseYamlBlock (length (split_nl text) + 2) text
  = Some (VObj (fold_left store (split_nl text) []) None).
Proof. intros F; apply parseYamlBlock_flat; [assumption|lia]. Qed.

(** The theorem above at an instance. *)
Lemma flat_text_returns_witness :
  parseYamlBlock 6 (jstr "# a skill\nname: x\n\nok: true")
  = Some (VObj [(jstr "name", VStr (jstr "x")); (jstr "ok", VBool true)] None).
Proof.
  exact (flat_text_returns (jstr "# a skill\nname: x\n\nok: true") eq_refl).
Defined.

(* ================================================================== *)
(** ** Blocks under a key *)
(* ================================================================== *)

Lemma collectChildren_all cs :
  forall i, forallb isChildLine cs = true ->
  collectChildren cs i 0 = (cs, i + length cs).
Proof.
  induction cs as [|c r IH]; intros i F.
  - simpl. f_equal; lia.
  - cbn [forallb] in F; apply andb_true_iff in F as [Fc Fr].
    unfold isChildLine in Fc. rewrite !andb_true_iff in Fc.
    destruct Fc as [[B I] _]. apply negb_true_iff in B.
    cbn [collectChildren]. rewrite B.
    apply Z.ltb_lt in I. destruct (Z.leb_spec (search_nonspace c) 0); [lia|].
    rewrite IH by assumption. f_equal. simpl; lia.
Qed.

Lemma isBlockMarker_inv m :
  isBlockMarker m = true -> m = [] \/ m = jstr "|" \/ m = jstr ">".
Proof.
  unfold isBlockMarker; rewrite !orb_true_iff, !str_eqb_eq; tauto.
Qed.

Lemma lineEntry_blockHeader key sp marker :
  isKey key = true -> forallb isWhiteSpace sp = true -> isBlockMarker marker = true ->
  lineEntry (blockHeader key sp marker) = Some (key, marker).
Proof.
  intros K S M. unfold blockHeader.
  apply isBlockMarker_inv in M as [->|[->| ->]].
  - rewrite lineEntry_key_value; auto.
  - rewrite lineEntry_key_value; auto. right; eexists _, _; split; reflexivity.
  - rewrite lineEntry_key_value; auto. right; eexists _, _; split; reflexivity.
Qed.

Lemma noLF_app a b : noLF (a ++ b) = noLF a && noLF b.
Proof. apply forallb_app. Qed.

Lemma noLF_blockHeader key sp marker :
  isKey key = true -> noLF sp = true -> isBlockMarker marker = true ->
  noLF (blockHeader key sp marker) = true.
Proof.
  intros K S M. unfold blockHeader.
  change (COLON :: sp ++ marker) with ([COLON] ++ sp ++ marker).
  rewrite !noLF_app, noLF_key, S by assumption.
  apply isBlockMarker_inv in M as [->|[->| ->]]; reflexivity.
Qed.

(** A key line that opens a block, and the lines of the block under it:
    the key gets what the recursive call returns on the lines joined. *)
Lemma nested_block key sp marker children v :
  isKey key = true -> key <> PROTO ->
  forallb isWhiteSpace sp = true -> noLF sp = true ->
  isBlockMarker marker = true ->
  forallb isChildLine children = true -> startsList children = false ->
  returns (join_nl children) v ->
  returns (join_nl (blockHeader key sp marker :: children)) (VObj [(key, v)] None).
Proof.
  intros K N Ws L M C D [fuel R].
  set (header := blockHeader key sp marker).
  assert (Sp : split_nl (join_nl (header :: children)) = header :: children).
  { apply split_join; [discriminate|].
    cbn [forallb]. unfold header. rewrite noLF_blockHeader by assumption.
    eapply forallb_impl; [|exact C].
    intros x Hx. unfold isChildLine in Hx.
    now apply andb_true_iff in Hx as [_ Hx]. }
  exists (S (S (S fuel))).
  change (parseYamlBlock (S (S (S fuel))) (join_nl (header :: children)))
    with (whileLoop (parseYamlBlock (S (S fuel))) (S (S fuel))
            (split_nl (join_nl (header :: children))) 0 emptyObject).
  rewrite Sp.
  rewrite (loop_block _ (header :: children) (S fuel) 0 emptyObject header key marker
             children (1 + length children)).
  - assert (B : blockValue (parseYamlBlock (S (S fuel))) children = Some v).
    { unfold blockValue, startsList in *.
      destruct children as [|first rest].
      - apply parseYamlBlock_mono with (f := fuel); [assumption|lia].
      - rewrite D. apply parseYamlBlock_mono with (f := fuel); [assumption|lia]. }
    rewrite B. unfold emptyObject.
    pose proof (parseYamlBlock_object _ _ _ R) as O.
    rewrite nextIndex_stays, ob_set_plain by (auto; now rewrite O).
    apply loop_end. apply nth_error_None. simpl; lia.
  - reflexivity.
  - now apply lineEntry_blockHeader.
  - assumption.
  - unfold header, blockHeader. rewrite search_nonspace_key by assumption.
    cbn [skipn]. now apply collectChildren_all.
Qed.

(** X4.  A key line that opens a block (nothing, or a block marker, after
    the colon) followed by child lines that are not blank, are indented,
    and do not start a list, gives the key whatever [parseYamlBlock]
    returns on the child lines alone. *)
Theorem nested_block_is_parsed_on_its_own
  (key sp marker : jsstring) (children : list jsstring) (v : value) :
  isKey key = true -> key <> PROTO ->
  forallb isWhiteSpace sp = true -> noLF sp = true ->
  isBlockMarker marker = true ->
  forallb isChildLine children = true -> startsList children = false ->
  returns (join_nl children) v ->
  returns (join_nl (blockHeader key sp marker :: children)) (VObj [(key, v)] None).
Proof. apply nested_block. Qed.

(** The theorem above at an instance. *)
Lemma nested_block_is_parsed_on_its_own_witness :
  returns (jstr "metadata:\n  openclaw:\n    emoji: x\n  kind: skill")
    (VObj [(jstr "metadata",
            VObj [(jstr "openclaw", VObj [(jstr "emoji", VStr (jstr "x"))] None);
                  (jstr "kind", VStr (jstr "skill"))] None)] None).
Proof.
  apply (nested_block_is_parsed_on_its_own (jstr "metadata") [] []
           [jstr "  openclaw:"; jstr "    emoji: x"; jstr "  kind: skill"]);
    try reflexivity.
  - discriminate.
  - exists 6; vm_compute; reflexivity.
Defined.




(* ================================================================== *)
(** ** Quoted values; what a line gives; lines of a text *)
(* ================================================================== *)

Lemma slice_inner c s d : slice 1 (-1) (c :: s ++ [d]) = s.
Proof.
  unfold slice, sliceIndex.
  assert (L : Z.of_nat (length (c :: s ++ [d])) = (Z.of_nat (length s) + 2)%Z).
  { cbn [length]. rewrite length_app. cbn [length]. lia. }
  rewrite L. change (1 <? 0)%Z with false. change (-1 <? 0)%Z with true. cbv iota.
  rewrite Z.min_l, Z.max_l by lia.
  replace (Z.to_nat (Z.of_nat (length s) + 2 + -1 - 1)) with (length s) by lia.
  change (Z.to_nat 1) with 1. cbn [skipn].
  rewrite firstn_app, firstn_all, Nat.sub_diag. cbn [firstn]. apply app_nil_r.
Qed.

Lemma endsWith_last c s d : endsWith [d] (c :: s ++ [d]) = true.
Proof.
  unfold endsWith.
  change (c :: s ++ [d]) with ((c :: s) ++ [d]). rewrite rev_app_distr.
  cbn [rev app startsWith]. now rewrite N.eqb_refl.
Qed.

(** X6.  A value between two double quotes, or between two single
    quotes, is stored as the characters between them, whatever they are:
    no escape is read and white space next to the quotes is kept. *)
Theorem quoted_value_is_unwrapped_verbatim :
  (forall s, inlineValue (QUOTE :: s ++ [QUOTE]) = VStr s)
  /\ (forall s, inlineValue (APOS :: s ++ [APOS]) = VStr s)
  /\ (forall key s,
        isKey key = true -> key <> PROTO -> forallb notLineTerminator s = true ->
        returns (key ++ COLON :: SPACE :: QUOTE :: s ++ [QUOTE])
          (VObj [(key, VStr s)] None)
        /\ returns (key ++ COLON :: SPACE :: APOS :: s ++ [APOS])
             (VObj [(key, VStr s)] None)).
Proof.
  assert (Q : forall s, inlineValue (QUOTE :: s ++ [QUOTE]) = VStr s).
  { intros s. unfold inlineValue.
    change (startsWith (jstr "{") (QUOTE :: s ++ [QUOTE])) with false.
    change (startsWith (jstr "[") (QUOTE :: s ++ [QUOTE])) with false.
    change (startsWith [QUOTE] (QUOTE :: s ++ [QUOTE])) with true.
    cbv iota. rewrite endsWith_last. cbn [andb]. now rewrite slice_inner. }
  assert (A : forall s, inlineValue (APOS :: s ++ [APOS]) = VStr s).
  { intros s. unfold inlineValue.
    change (startsWith (jstr "{") (APOS :: s ++ [APOS])) with false.
    change (startsWith (jstr "[") (APOS :: s ++ [APOS])) with false.
    change (startsWith [APOS] (APOS :: s ++ [APOS])) with true.
    change (startsWith [QUOTE] (APOS :: s ++ [APOS])) with false.
    cbv iota. cbn [andb]. rewrite endsWith_last. cbn [andb]. now rewrite slice_inner. }
  split; [exact Q|]. split; [exact A|].
  assert (G : forall q, isWhiteSpace q = false -> notLineTerminator q = true ->
              N.eqb q LF = false ->
              forall key s, isKey key = true -> key <> PROTO ->
                forallb notLineTerminator s = true ->
                forall x, inlineValue (q :: s ++ [q]) = VStr x ->
                returns (key ++ COLON :: SPACE :: q :: s ++ [q]) (VObj [(key, VStr x)] None)).
  { intros q Wq Lq Fq key s K N L x I.
    remember (q :: s ++ [q]) as v eqn:Ev.
    assert (Tv : isTrimmed v = true).
    { assert (R : rev (q :: s ++ [q]) = q :: rev s ++ [q]).
      { change (q :: s ++ [q]) with ((q :: s) ++ [q]).
        now rewrite rev_app_distr. }
      rewrite Ev. unfold isTrimmed. rewrite R. now rewrite Wq. }
    assert (Lv : forallb notLineTerminator v = true).
    { rewrite Ev. cbn [forallb]. rewrite forallb_app, L, Lq. cbn. now rewrite Lq. }
    assert (E : lineEntry (key ++ COLON :: SPACE :: v) = Some (key, v)).
    { change (key ++ COLON :: SPACE :: v) with (key ++ COLON :: [SPACE] ++ v).
      rewrite lineEntry_key_value; auto.
      - now rewrite takeWhile_all, trim_trimmed.
      - right; exists q, (s ++ [q]); auto. }
    assert (NL : noLF (key ++ COLON :: SPACE :: v) = true).
    { change (key ++ COLON :: SPACE :: v) with (key ++ [COLON; SPACE] ++ v).
      rewrite !noLF_app, noLF_key by assumption. cbn [andb].
      change (noLF [COLON; SPACE]) with true. cbn [andb].
      eapply forallb_impl; [|exact Lv].
      intros c Hc; now rewrite notLineTerminator_not_LF. }
    exists 3. rewrite parseYamlBlock_flat; rewrite (split_nl_line _ NL).
    - cbn [fold_left]. unfold store. now rewrite E, I.
    - cbn [forallb]. unfold flatLine. rewrite E, I.
      apply str_eqb_neq in N. rewrite N. cbn [negb andb orb isObjectValue isArrayValue].
      destruct (isBlockMarker v) eqn:B; [|reflexivity].
      apply isBlockMarker_inv in B as [B|[B|B]]; rewrite Ev in B.
      + discriminate.
      + destruct s; discriminate.
      + destruct s; discriminate.
    - simpl; lia. }
  intros key s K N L; split.
  - apply (G QUOTE); auto.
  - apply (G APOS); auto.
Qed.

(** What a line gives is a key of the key pattern and a value that holds no
    line terminator and is empty or has no white space at either end. *)
Lemma dropWhile_keeps_last p l c :
  p c = false -> exists q, dropWhile p (l ++ [c]) = q ++ [c].
Proof.
  intros H; induction l as [|x l IH]; cbn [app dropWhile].
  - rewrite H; now exists [].
  - destruct (p x); [exact IH|]. now exists (x :: l).
Qed.

Lemma dropWhile_head_false p l c r : dropWhile p l = c :: r -> p c = false.
Proof.
  induction l as [|x l IH]; cbn [dropWhile]; [discriminate|].
  destruct (p x) eqn:E; [exact IH|]. intros H; inversion H; subst; exact E.
Qed.

Lemma trim_shape s : trim s = [] \/ isTrimmed (trim s) = true.
Proof.
  unfold trim, trimStart, trimEnd.
  destruct (dropWhile isWhiteSpace s) as [|c r] eqn:D; [left; reflexivity|].
  right. pose proof (dropWhile_head_false _ _ _ _ D) as Hc.
  change (c :: r) with ([c] ++ r). rewrite rev_app_distr. cbn [rev app].
  destruct (dropWhile_keeps_last isWhiteSpace (rev r) c Hc) as [q Q].
  rewrite Q. rewrite rev_app_distr. cbn [rev app].
  unfold isTrimmed. change (c :: rev q) with ([c] ++ rev q).
  rewrite rev_app_distr, rev_involutive. cbn [rev app].
  rewrite <- Q.
  destruct (dropWhile isWhiteSpace (rev r ++ [c])) as [|d t] eqn:D2.
  - destruct q; discriminate.
  - rewrite (dropWhile_head_false _ _ _ _ D2), Hc. reflexivity.
Qed.

Lemma forallb_takeWhile p s : forallb p (takeWhile p s) = true.
Proof.
  induction s as [|c r IH]; [reflexivity|]. cbn [takeWhile].
  destruct (p c) eqn:E; [|reflexivity]. cbn [forallb]. now rewrite E, IH.
Qed.

Lemma forallb_dropWhile {q} p s : forallb q s = true -> forallb q (dropWhile p s) = true.
Proof.
  induction s as [|c r IH]; [auto|]. cbn [dropWhile forallb].
  intros H; apply andb_true_iff in H as [H1 H2].
  destruct (p c); [auto|]. cbn [forallb]. now rewrite H1, H2.
Qed.

Lemma forallb_rev {q} (s : jsstring) : forallb q (rev s) = forallb q s.
Proof.
  induction s as [|c r IH]; [reflexivity|]. cbn [rev forallb].
  rewrite forallb_app, IH. cbn [forallb]. rewrite andb_true_r. apply andb_comm.
Qed.

Lemma forallb_trim q s : forallb q s = true -> forallb q (trim s) = true.
Proof.
  intros H. unfold trim, trimEnd, trimStart.
  rewrite forallb_rev. apply forallb_dropWhile. rewrite forallb_rev.
  now apply forallb_dropWhile.
Qed.

Lemma kvMatch_key line g key raw :
  kvMatch line = Some (g, key, raw) ->
  isKey key = true /\ forallb notLineTerminator raw = true.
Proof.
  unfold kvMatch.
  destruct (takeWhile isKeyChar (dropWhile isWhiteSpace line)) as [|c k] eqn:T;
    [discriminate|].
  destruct (dropWhile isWhiteSpace (dropWhile isKeyChar (dropWhile isWhiteSpace line)))
    as [|c1 r1]; [discriminate|].
  destruct (N.eqb c1 COLON); [|discriminate].
  intros H; inversion H; subst. split.
  - unfold isKey. rewrite <- T. apply forallb_takeWhile.
  - apply forallb_takeWhile.
Qed.

(** X7.  The key read from an entry line is a string, not empty, of
    word characters, dots and dashes; the value holds no line terminator
    and is empty or has no white space at either end; the line is neither
    blank nor a comment. *)
Theorem entry_has_pattern_key_and_trimmed_value (line key val : jsstring) :
  lineEntry line = Some (key, val) ->
  isKey key = true
  /\ forallb notLineTerminator val = true
  /\ (val = [] \/ isTrimmed val = true)
  /\ isBlank line = false /\ isComment line = false.
Proof.
  unfold lineEntry.
  destruct (isBlank line) eqn:B; [discriminate|].
  destruct (isComment line) eqn:C; [discriminate|]. cbn [orb].
  destruct (kvMatch line) as [[[g k] raw]|] eqn:M; [|discriminate].
  intros H; inversion H; subst.
  destruct (kvMatch_key _ _ _ _ M) as [K L].
  repeat split; auto using forallb_trim, trim_shape.
Qed.

(** The theorem above at an instance. *)
Lemma entry_has_pattern_key_and_trimmed_value_witness :
  isKey (jstr "user.name-1") = true
  /\ forallb notLineTerminator (jstr "a  b") = true
  /\ (jstr "a  b" = [] \/ isTrimmed (jstr "a  b") = true)
  /\ isBlank (jstr "  user.name-1 :   a  b  ") = false
  /\ isComment (jstr "  user.name-1 :   a  b  ") = false.
Proof.
  apply (entry_has_pattern_key_and_trimmed_value (jstr "  user.name-1 :   a  b  ")).
  reflexivity.
Defined.

(** X8.  Lines 40 and 71: joining the lines of a text with line feeds
    gives the text back, the lines of a text are at least one and hold no
    line feed, and splitting the join of such lines gives the lines back,
    so the recursive call sees exactly the child lines collected. *)
Theorem split_and_join_are_inverse :
  (forall s, join_nl (split_nl s) = s)
  /\ (forall s, split_nl s <> [] /\ forallb noLF (split_nl s) = true)
  /\ (forall ls, ls <> [] -> forallb noLF ls = true -> split_nl (join_nl ls) = ls).
Proof.
  split; [exact join_split|]. split; [|exact split_join].
  intros s; split; [apply split_nl_nonempty|apply split_nl_noLF].
Qed.

(* ================================================================== *)
(** ** Keys of entry lines *)
(* ================================================================== *)

Lemma entry_has_key line key val :
  lineEntry line = Some (key, val) -> isKey key = true /\ isBlank line = false.
Proof.
  unfold lineEntry.
  destruct (isBlank line) eqn:B; [discriminate|].
  destruct (isComment line) eqn:C; [discriminate|]. cbn [orb].
  destruct (kvMatch line) as [[[g k] raw]|] eqn:M; [|discriminate].
  intros H; inversion H; subst.
  destruct (kvMatch_key _ _ _ _ M) as [K L]. auto.
Qed.

(* ================================================================== *)
(** ** The data argument and the version pattern *)
(* ================================================================== *)

(** *** The shell reads the data argument as the data *)

Lemma shellWord_single s :
  forall rest w,
    shellWord Unquoted rest = Some w ->
    shellWord SingleQuoted (escapeQuotes s ++ APOS :: rest) = Some (s ++ w).
Proof.
  induction s as [|c s IH]; intros rest w H.
  - cbn [escapeQuotes flat_map app shellWord]. now rewrite N.eqb_refl.
  - cbn [escapeQuotes flat_map]. fold (escapeQuotes s).
    destruct (N.eqb c APOS) eqn:E.
    + apply N.eqb_eq in E; subst c.
      change (([APOS; QUOTE; APOS; QUOTE; APOS] ++ escapeQuotes s) ++ APOS :: rest)
        with (APOS :: QUOTE :: APOS :: QUOTE :: APOS :: (escapeQuotes s ++ APOS :: rest)).
      change (shellWord SingleQuoted
                (APOS :: QUOTE :: APOS :: QUOTE :: APOS :: (escapeQuotes s ++ APOS :: rest)))
        with (match shellWord SingleQuoted (escapeQuotes s ++ APOS :: rest) with
              | Some w' => Some (APOS :: w')
              | None => None
              end).
      now rewrite (IH rest w H).
    + cbn [app shellWord]. rewrite E. now rewrite (IH rest w H).
Qed.

(** X11.  cli.js, lines 69-75: the argument built for the request body,
    read by the shell, is the JSON text of the data again, whatever single
    quotes it holds. *)
Theorem shell_reads_data_argument_as_the_data :
  forall jsonData, shellWord Unquoted (dataArgument jsonData) = Some jsonData.
Proof.
  intros s. unfold dataArgument. cbn [shellWord]. rewrite N.eqb_refl.
  rewrite (shellWord_single s [] [] eq_refl). now rewrite app_nil_r.
Qed.

(** *** The version pattern *)

Lemma take_drop p (s : jsstring) : takeWhile p s ++ dropWhile p s = s.
Proof.
  induction s as [|c r IH]; [reflexivity|]. cbn [takeWhile dropWhile].
  destruct (p c); [cbn [app]; now rewrite IH|reflexivity].
Qed.

Lemma digitsThen_some s r :
  digitsThen s = Some r -> exists a, isDigits a = true /\ s = a ++ r.
Proof.
  unfold digitsThen. destruct (takeWhile isDigit s) as [|c t] eqn:T; [discriminate|].
  intros H; inversion H; subst. exists (c :: t); split.
  - unfold isDigits. rewrite <- T. apply forallb_takeWhile.
  - rewrite <- T. symmetry; apply take_drop.
Qed.

Lemma dotThen_some s r : dotThen s = Some r -> s = DOT :: r.
Proof.
  unfold dotThen. destruct s as [|c q]; [discriminate|].
  destruct (N.eqb c DOT) eqn:E; [|discriminate].
  apply N.eqb_eq in E; subst. intros H; now inversion H.
Qed.

Lemma digitsThen_dot a r :
  isDigits a = true -> digitsThen (a ++ DOT :: r) = Some (DOT :: r).
Proof.
  intros A. unfold digitsThen.
  destruct a as [|c t]; [discriminate|]. unfold isDigits in A.
  rewrite takeWhile_app, dropWhile_app by (auto; reflexivity). reflexivity.
Qed.

Lemma digitsThen_any a r :
  isDigits a = true -> exists r', digitsThen (a ++ r) = Some r'.
Proof.
  intros A. unfold digitsThen.
  destruct a as [|c t]; [discriminate|]. unfold isDigits in A.
  cbn [forallb] in A. apply andb_true_iff in A as [A _].
  cbn [app takeWhile]. rewrite A. eauto.
Qed.

(** X12.  Line 157: the version test accepts exactly the strings that
    start with digits, a dot, digits, a dot and digits; so whatever is
    appended to an accepted version is accepted too. *)
Theorem version_test_looks_at_a_prefix_only :
  (forall s,
      versionTest s = true <->
      exists a b c rest,
        isDigits a = true /\ isDigits b = true /\ isDigits c = true /\
        s = a ++ DOT :: b ++ DOT :: c ++ rest)
  /\ (forall s t, versionTest s = true -> versionTest (s ++ t) = true).
Proof.
  assert (A : forall s,
             versionTest s = true <->
             exists a b c rest,
               isDigits a = true /\ isDigits b = true /\ isDigits c = true /\
               s = a ++ DOT :: b ++ DOT :: c ++ rest).
  { intros s; split.
    - unfold versionTest.
      destruct (digitsThen s) as [r1|] eqn:D1; [|discriminate].
      destruct (dotThen r1) as [r2|] eqn:P1; [|discriminate].
      destruct (digitsThen r2) as [r3|] eqn:D2; [|discriminate].
      destruct (dotThen r3) as [r4|] eqn:P2; [|discriminate].
      destruct (digitsThen r4) as [r5|] eqn:D3; [|discriminate].
      intros _.
      apply digitsThen_some in D1 as (a & Ha & ->).
      apply dotThen_some in P1 as ->.
      apply digitsThen_some in D2 as (b & Hb & ->).
      apply dotThen_some in P2 as ->.
      apply digitsThen_some in D3 as (c & Hc & ->).
      exists a, b, c, r5; auto.
    - intros (a & b & c & rest & Ha & Hb & Hc & ->).
      unfold versionTest.
      rewrite (digitsThen_dot a _ Ha). cbn [dotThen]. rewrite N.eqb_refl.
      rewrite (digitsThen_dot b _ Hb). cbn [dotThen]. rewrite N.eqb_refl.
      destruct (digitsThen_any c rest Hc) as [r' ->]. reflexivity. }
  split; [exact A|].
  intros s t H. apply A in H as (a & b & c & rest & Ha & Hb & Hc & ->).
  apply A. exists a, b, c, (rest ++ t). repeat split; auto.
  now rewrite <- !app_assoc, <- !app_comm_cons, <- !app_assoc, <- !app_comm_cons, <- !app_assoc.
Qed.

(* ================================================================== *)
(** ** The body pattern and the name pattern *)
(* ================================================================== *)

(** *** The body pattern *)

Lemma afterDashes_eq s :
  afterDashes s =
  if startsWith [DASH; DASH; DASH] s then Some (skipn 3 s)
  else match s with
       | [] => None
       | _ :: r => afterDashes r
       end.
Proof. destruct s; reflexivity. Qed.

Lemma hasDashes_eq s :
  hasDashes s =
  startsWith [DASH; DASH; DASH] s
  || match s with
     | [] => false
     | _ :: r => hasDashes r
     end.
Proof. destruct s; reflexivity. Qed.

(** The first three characters decide whether a string starts with three
    dashes. *)
Lemma startsWith_dashes_app a x y z :
  startsWith [DASH; DASH; DASH] ((a :: x) ++ [DASH; DASH] ++ y) = false ->
  startsWith [DASH; DASH; DASH] ((a :: x) ++ [DASH; DASH] ++ z) = false.
Proof.
  destruct x as [|b [|c r]]; cbn [app startsWith]; intros H.
  - rewrite !N.eqb_refl in *. cbn [andb] in *.
    destruct (N.eqb DASH a); [discriminate|reflexivity].
  - rewrite !N.eqb_refl in *.
    destruct (N.eqb DASH a); [|reflexivity].
    destruct (N.eqb DASH b); [discriminate|reflexivity].
  - exact H.
Qed.

Lemma afterDashes_first x :
  forall tail,
    hasDashes (x ++ [DASH; DASH]) = false ->
    afterDashes (x ++ [DASH; DASH; DASH] ++ tail) = Some tail.
Proof.
  induction x as [|a x IH]; intros tail H.
  - reflexivity.
  - rewrite hasDashes_eq in H. apply orb_false_iff in H as [H1 H2].
    cbn [app] in H2.
    rewrite afterDashes_eq.
    change ((a :: x) ++ [DASH; DASH; DASH] ++ tail)
      with ((a :: x) ++ [DASH; DASH] ++ (DASH :: tail)).
    rewrite (startsWith_dashes_app a x [] (DASH :: tail))
      by (now rewrite app_nil_r).
    cbn [app]. apply (IH tail H2).
Qed.

Lemma hasDashes_nondash c s : N.eqb DASH c = false -> hasDashes (c :: s) = hasDashes s.
Proof.
  intros H. rewrite hasDashes_eq. cbn [startsWith]. now rewrite H.
Qed.

Lemma hasDashes_app_nondash x c y :
  hasDashes x = false -> N.eqb DASH c = false ->
  hasDashes (x ++ c :: y) = hasDashes y.
Proof.
  intros H N; induction x as [|a x IH].
  - now apply hasDashes_nondash.
  - rewrite hasDashes_eq in H. apply orb_false_iff in H as [H1 H2].
    rewrite hasDashes_eq. cbn [app]. rewrite (IH H2).
    replace (startsWith [DASH; DASH; DASH] (a :: x ++ c :: y)) with false; [reflexivity|].
    symmetry. destruct x as [|b [|d r]]; cbn [app startsWith] in *.
    + rewrite N. now rewrite !andb_false_r.
    + rewrite N. now rewrite !andb_false_r.
    + exact H1.
Qed.

Lemma isLineBreak_inv nl : isLineBreak nl = true -> nl = [LF] \/ nl = [CR; LF].
Proof. unfold isLineBreak; rewrite orb_true_iff, !str_eqb_eq; tauto. Qed.

Lemma closesAt_inv s :
  closesAt s = true ->
  exists nl tail, isLineBreak nl = true /\ s = nl ++ [DASH; DASH; DASH] ++ tail.
Proof.
  unfold closesAt. intros H; apply orb_true_iff in H as [H|H].
  - destruct s as [|a [|b [|c [|d [|e tail]]]]];
      cbn [startsWith] in H; rewrite ?andb_false_r in H; try discriminate.
    rewrite !andb_true_iff, !N.eqb_eq in H.
    destruct H as (<- & <- & <- & <- & <- & _).
    exists [CR; LF], tail; split; reflexivity.
  - destruct s as [|a [|b [|c [|d tail]]]];
      cbn [startsWith] in H; rewrite ?andb_false_r in H; try discriminate.
    rewrite !andb_true_iff, !N.eqb_eq in H.
    destruct H as (<- & <- & <- & <- & _).
    exists [LF], tail; split; reflexivity.
Qed.

(** The content without the match of the body pattern, when the first
    three dashes after the opening ones are followed by [tail]. *)
Lemma bodyOf_first x tail :
  hasDashes (x ++ [DASH; DASH]) = false ->
  bodyOf ([DASH; DASH; DASH] ++ x ++ [DASH; DASH; DASH] ++ tail) = trimStart tail.
Proof.
  intros H. unfold bodyOf.
  change (startsWith [DASH; DASH; DASH] ([DASH; DASH; DASH] ++ x ++ [DASH; DASH; DASH] ++ tail))
    with true. cbv iota.
  change (skipn 3 ([DASH; DASH; DASH] ++ x ++ [DASH; DASH; DASH] ++ tail))
    with (x ++ [DASH; DASH; DASH] ++ tail).
  now rewrite afterDashes_first.
Qed.

Lemma hasDashes_linebreak nl s :
  isLineBreak nl = true -> hasDashes (nl ++ s) = hasDashes s.
Proof.
  intros H; apply isLineBreak_inv in H as [->| ->]; cbn [app];
    rewrite ?hasDashes_nondash by reflexivity; reflexivity.
Qed.

(** X13.  Lines 34 and 313: when the frontmatter pattern matches and the
    block it captures holds no three dashes in a row, the body is what
    follows the closing dashes, without the white space at its start. *)
Theorem body_starts_after_the_closing_dashes (content block : jsstring) :
  matchFrontmatter content = Some block -> hasDashes block = false ->
  exists nl nl' tail,
    isLineBreak nl = true /\ isLineBreak nl' = true /\
    content = jstr "---" ++ nl ++ block ++ nl' ++ jstr "---" ++ tail /\
    bodyOf content = trimStart tail.
Proof.
  intros M H.
  destruct (matchFrontmatter_some _ _ M) as (rest & O & L).
  destruct (lazyUntilClose_some _ _ L) as (tail0 & E & T & _).
  destruct (closesAt_inv _ T) as (nl' & tail & B' & ->).
  assert (exists nl, isLineBreak nl = true /\ content = jstr "---" ++ nl ++ rest)
    as (nl & B & ->).
  { destruct O as [->| ->]; [exists [LF]|exists [CR; LF]]; split; reflexivity. }
  exists nl, nl', tail. subst rest. repeat split; auto.
  change (jstr "---") with [DASH; DASH; DASH].
  replace (nl ++ (block ++ nl' ++ [DASH; DASH; DASH] ++ tail))
    with ((nl ++ block ++ nl') ++ [DASH; DASH; DASH] ++ tail)
    by now rewrite <- !app_assoc.
  apply bodyOf_first.
  rewrite <- !app_assoc, hasDashes_linebreak by assumption.
  apply isLineBreak_inv in B' as [->| ->]; cbn [app].
  - now rewrite hasDashes_app_nondash.
  - now rewrite hasDashes_app_nondash.
Qed.

(** The theorem above at an instance. *)
Lemma body_starts_after_the_closing_dashes_witness :
  exists nl nl' tail,
    isLineBreak nl = true /\ isLineBreak nl' = true /\
    jstr "---\r\nname: x\r\n---\r\n\r\n# Title\n"
    = jstr "---" ++ nl ++ jstr "name: x" ++ nl' ++ jstr "---" ++ tail /\
    bodyOf (jstr "---\r\nname: x\r\n---\r\n\r\n# Title\n") = trimStart tail.
Proof.
  apply (body_starts_after_the_closing_dashes
           (jstr "---\r\nname: x\r\n---\r\n\r\n# Title\n") (jstr "name: x"));
    reflexivity.
Defined.

(** X14.  When the block does hold three dashes in a row, the body
    pattern stops at the first of them: the body then starts inside the
    frontmatter and holds the rest of the block and the closing dashes. *)
Theorem body_starts_inside_a_block_with_dashes
  (content block before after : jsstring) :
  matchFrontmatter content = Some block ->
  block = before ++ jstr "---" ++ after ->
  hasDashes (before ++ [DASH; DASH]) = false ->
  exists nl' tail,
    isLineBreak nl' = true /\
    bodyOf content = trimStart (after ++ nl' ++ jstr "---" ++ tail).
Proof.
  intros M Eb H.
  destruct (matchFrontmatter_some _ _ M) as (rest & O & L).
  destruct (lazyUntilClose_some _ _ L) as (tail0 & E & T & _).
  destruct (closesAt_inv _ T) as (nl' & tail & B' & ->).
  assert (exists nl, isLineBreak nl = true /\ content = jstr "---" ++ nl ++ rest)
    as (nl & B & ->).
  { destruct O as [->| ->]; [exists [LF]|exists [CR; LF]]; split; reflexivity. }
  exists nl', tail. split; [assumption|]. subst rest block.
  change (jstr "---") with [DASH; DASH; DASH].
  replace (nl ++ (before ++ [DASH; DASH; DASH] ++ after) ++ nl' ++ [DASH; DASH; DASH] ++ tail)
    with ((nl ++ before) ++ [DASH; DASH; DASH] ++ (after ++ nl' ++ [DASH; DASH; DASH] ++ tail))
    by now rewrite <- !app_assoc.
  apply bodyOf_first.
  now rewrite <- app_assoc, hasDashes_linebreak.
Qed.

(** The theorem above at an instance. *)
Lemma body_starts_inside_a_block_with_dashes_witness :
  exists nl' tail,
    isLineBreak nl' = true /\
    bodyOf (jstr "---\ntitle: a---b\n---\nBody\n")
    = trimStart (jstr "b" ++ nl' ++ jstr "---" ++ tail).
Proof.
  apply (body_starts_inside_a_block_with_dashes
           (jstr "---\ntitle: a---b\n---\nBody\n") (jstr "title: a---b")
           (jstr "title: a") (jstr "b")); reflexivity.
Defined.

(** *** The name pattern and the parser *)

Lemma isLowerOrDigit_range c : isLowerOrDigit c = true -> (48 <= c <= 122)%N /\ isKeyChar c = true.
Proof.
  unfold isLowerOrDigit, isKeyChar, isWordChar, between.
  rewrite !orb_true_iff, !andb_true_iff, !N.leb_le. intros H; split; [lia|]. tauto.
Qed.

Lemma nameChar_keyChar c :
  isLowerOrDigit c || N.eqb c DASH = true -> isKeyChar c = true.
Proof.
  intros H; apply orb_true_iff in H as [H|H].
  - now apply isLowerOrDigit_range in H.
  - unfold isKeyChar. rewrite H. apply orb_true_r.
Qed.

Lemma nameTest_key s : nameTest s = true -> isKey s = true.
Proof.
  destruct s as [|c r]; [discriminate|]. unfold nameTest, isKey. cbn [forallb].
  intros H; apply andb_true_iff in H as [H1 H2].
  apply isLowerOrDigit_range in H1 as [_ ->]. cbn [andb].
  eapply forallb_impl; [|exact H2]. apply nameChar_keyChar.
Qed.

Lemma range_not_terminator c : (45 <= c <= 122)%N -> notLineTerminator c = true.
Proof.
  intros H. unfold notLineTerminator, isLineTerminator.
  rewrite negb_true_iff, !orb_false_iff, !N.eqb_neq. lia.
Qed.

Lemma isKey_plain s :
  isKey s = true -> s <> jstr "true" -> s <> jstr "false" -> isPlain s = true.
Proof.
  intros K T F. destruct (isKey_inv s K) as (c & r & E & Hc & Hk).
  assert (Hl : exists d q, rev s = d :: q /\ isKeyChar d = true).
  { destruct (rev s) as [|d q] eqn:R.
    - apply (f_equal (@rev _)) in R. rewrite rev_involutive in R. subst; discriminate.
    - exists d, q; split; [reflexivity|].
      rewrite <- forallb_rev, R in Hk. cbn [forallb] in Hk.
      now apply andb_true_iff in Hk as [Hk _]. }
  destruct Hl as (d & q & R & Hd).
  pose proof (isKeyChar_range c Hc) as [Rc _].
  pose proof (isKeyChar_range d Hd) as [Rd _].
  assert (O : startsWith (jstr "{") s = false).
  { rewrite E. change (jstr "{") with [123%N]. cbn [startsWith].
    replace (N.eqb 123 c) with false by (symmetry; apply N.eqb_neq; lia). reflexivity. }
  assert (A : startsWith (jstr "[") s = false).
  { rewrite E. change (jstr "[") with [91%N]. cbn [startsWith].
    destruct (N.eqb 91 c) eqn:G; [|reflexivity].
    apply N.eqb_eq in G; subst c. discriminate. }
  assert (Q : startsWith [QUOTE] s = false).
  { rewrite E. cbn [startsWith].
    replace (N.eqb QUOTE c) with false by (symmetry; apply N.eqb_neq; unfold QUOTE; lia).
    reflexivity. }
  assert (P : startsWith [APOS] s = false).
  { rewrite E. cbn [startsWith].
    replace (N.eqb APOS c) with false by (symmetry; apply N.eqb_neq; unfold APOS; lia).
    reflexivity. }
  unfold isPlain, isJsonText, isQuoted. rewrite O, A, Q, P. cbn [orb andb negb].
  rewrite !andb_true_r, !andb_true_iff, !negb_true_iff. repeat split.
  - rewrite E. unfold isTrimmed. rewrite <- E, R.
    now rewrite (isKeyChar_not_space c Hc), (isKeyChar_not_space d Hd).
  - eapply forallb_impl; [|exact Hk].
    intros x Hx. apply range_not_terminator, isKeyChar_range, Hx.
  - unfold isBlockMarker. rewrite E. cbn [str_eqb].
    change (jstr "|") with [124%N]. change (jstr ">") with [62%N]. cbn [str_eqb].
    replace (N.eqb c 124) with false by (symmetry; apply N.eqb_neq; lia).
    destruct (N.eqb c 62) eqn:G; [|reflexivity].
    apply N.eqb_eq in G; subst c. discriminate.
  - now apply str_eqb_neq.
  - now apply str_eqb_neq.
Qed.

(** A single entry line with a plain value. *)
Lemma plain_line_returns e :
  goodEntry e = true -> returns (entryLine e) (VObj [(fst e, VStr (snd e))] None).
Proof.
  intros G. destruct (flatLine_entryLine e G) as [F S].
  exists 3. rewrite parseYamlBlock_flat; rewrite (split_nl_line _ (noLF_entryLine e G)).
  - cbn [fold_left]. now rewrite S.
  - cbn [forallb]. now rewrite F.
  - simpl; lia.
Qed.

(** X15.  Lines 132 and 39-94: a name that passes the name test and is
    not one of the two boolean words is a key of the key pattern, and the
    parser reads it from a name line as the string it is. *)
Theorem accepted_name_is_read_unchanged (s : jsstring) :
  nameTest s = true -> s <> jstr "true" -> s <> jstr "false" ->
  returns (jstr "name: " ++ s) (VObj [(jstr "name", VStr s)] None)
  /\ isKey s = true.
Proof.
  intros N T F. split; [|now apply nameTest_key].
  apply (plain_line_returns (jstr "name", s)).
  unfold goodEntry. cbn [fst snd].
  rewrite (isKey_plain s) by auto using nameTest_key. reflexivity.
Qed.

(** The theorem above at an instance. *)
Lemma accepted_name_is_read_unchanged_witness :
  returns (jstr "name: claw-post2") (VObj [(jstr "name", VStr (jstr "claw-post2"))] None)
  /\ isKey (jstr "claw-post2") = true.
Proof.
  apply (accepted_name_is_read_unchanged (jstr "claw-post2"));
    [reflexivity|discriminate|discriminate].
Defined.

(* ================================================================== *)
(** ** Carriage returns *)
(* ================================================================== *)

Lemma takeWhile_snoc_false p (s : jsstring) c :
  p c = false -> takeWhile p (s ++ [c]) = takeWhile p s.
Proof.
  intros H; induction s as [|x s IH]; cbn [app takeWhile]; [now rewrite H|].
  destruct (p x); [now rewrite IH|reflexivity].
Qed.

Lemma dropWhile_snoc_false p (s : jsstring) c :
  p c = false -> dropWhile p (s ++ [c]) = dropWhile p s ++ [c].
Proof.
  intros H; induction s as [|x s IH]; cbn [app dropWhile]; [now rewrite H|].
  destruct (p x); [exact IH|reflexivity].
Qed.

Lemma dropWhile_snoc_true p (s : jsstring) c :
  p c = true ->
  dropWhile p (s ++ [c]) = if forallb p s then [] else dropWhile p s ++ [c].
Proof.
  intros H; induction s as [|x s IH]; cbn [app dropWhile forallb]; [now rewrite H|].
  destruct (p x); [exact IH|reflexivity].
Qed.

Lemma dropWhile_nil p (s : jsstring) : dropWhile p s = [] -> forallb p s = true.
Proof.
  induction s as [|x s IH]; cbn [dropWhile forallb]; [reflexivity|].
  destruct (p x); [exact IH|discriminate].
Qed.

Lemma isBlank_cr l : isBlank (l ++ [CR]) = isBlank l.
Proof. unfold isBlank. rewrite forallb_app. cbn. apply andb_true_r. Qed.

Lemma trimStart_cr l :
  trimStart (l ++ [CR]) = if isBlank l then [] else trimStart l ++ [CR].
Proof. unfold trimStart, isBlank. now apply dropWhile_snoc_true. Qed.

Lemma trimStart_nonblank l : isBlank l = false -> exists c r, trimStart l = c :: r.
Proof.
  intros B. unfold trimStart. destruct (dropWhile isWhiteSpace l) as [|c r] eqn:D; [|eauto].
  apply dropWhile_nil in D. unfold isBlank in B. congruence.
Qed.

Lemma isComment_cr l : isComment (l ++ [CR]) = isComment l.
Proof.
  unfold isComment. rewrite trimStart_cr.
  destruct (isBlank l) eqn:B.
  - unfold trimStart. unfold isBlank in B. now rewrite dropWhile_all.
  - destruct (trimStart_nonblank l B) as (c & r & ->). reflexivity.
Qed.

Lemma search_nonspace_cr l :
  isBlank l = false -> search_nonspace (l ++ [CR]) = search_nonspace l.
Proof.
  induction l as [|c r IH]; [discriminate|].
  unfold isBlank. cbn [forallb app search_nonspace].
  destruct (isWhiteSpace c); [|reflexivity].
  cbn [andb]. intros B. now rewrite IH.
Qed.

Lemma trim_cr l : trim (l ++ [CR]) = trim l.
Proof.
  unfold trim. rewrite trimStart_cr.
  destruct (isBlank l) eqn:B.
  - unfold trimStart. unfold isBlank in B. now rewrite dropWhile_all.
  - unfold trimEnd. rewrite rev_app_distr. reflexivity.
Qed.

Lemma lineEntry_cr l : lineEntry (l ++ [CR]) = lineEntry l.
Proof.
  unfold lineEntry. rewrite isBlank_cr, isComment_cr.
  destruct (isBlank l) eqn:B; [reflexivity|].
  destruct (isComment l); [reflexivity|]. cbn [orb].
  unfold kvMatch. cbv zeta.
  rewrite (dropWhile_snoc_true isWhiteSpace l CR eq_refl).
  fold (isBlank l). rewrite B.
  rewrite (takeWhile_snoc_false isKeyChar _ CR eq_refl).
  destruct (takeWhile isKeyChar (dropWhile isWhiteSpace l)) as [|k0 k]; [reflexivity|].
  rewrite (dropWhile_snoc_false isKeyChar _ CR eq_refl).
  rewrite (dropWhile_snoc_true isWhiteSpace _ CR eq_refl).
  destruct (forallb isWhiteSpace (dropWhile isKeyChar (dropWhile isWhiteSpace l))) eqn:F.
  { now rewrite (dropWhile_all _ _ F). }
  destruct (dropWhile isWhiteSpace (dropWhile isKeyChar (dropWhile isWhiteSpace l)))
    as [|c1 r1] eqn:D.
  { apply dropWhile_nil in D. congruence. }
  cbn [app]. destruct (N.eqb c1 COLON); [|reflexivity].
  rewrite (dropWhile_snoc_true isWhiteSpace r1 CR eq_refl).
  destruct (forallb isWhiteSpace r1) eqn:F1.
  - now rewrite (dropWhile_all _ _ F1).
  - now rewrite (takeWhile_snoc_false notLineTerminator _ CR eq_refl).
Qed.

Lemma crEq_facts l l' :
  crEq l l' ->
  isBlank l' = isBlank l /\ lineEntry l' = lineEntry l /\ trim l' = trim l /\
  (isBlank l = false -> search_nonspace l' = search_nonspace l) /\
  (noLF l = true -> noLF l' = true).
Proof.
  intros [->| ->]; [tauto|].
  repeat split; auto using isBlank_cr, lineEntry_cr, trim_cr, search_nonspace_cr.
  intros N. now rewrite noLF_app, N.
Qed.

Lemma Forall2_nth_error {A B} (R : A -> B -> Prop) l l' i :
  Forall2 R l l' ->
  match nth_error l i, nth_error l' i with
  | Some x, Some y => R x y
  | None, None => True
  | _, _ => False
  end.
Proof.
  intros F; revert i; induction F as [|x y l l' H F IH]; intros [|i]; cbn; auto.
  apply IH.
Qed.

Lemma Forall2_skipn {A B} (R : A -> B -> Prop) l l' n :
  Forall2 R l l' -> Forall2 R (skipn n l) (skipn n l').
Proof.
  intros F; revert n; induction F as [|x y l l' H F IH]; intros [|n]; cbn; auto.
Qed.

Lemma collectChildren_cr rest rest' :
  Forall2 crEq rest rest' ->
  forall i indent,
    Forall2 crEq (fst (collectChildren rest i indent)) (fst (collectChildren rest' i indent))
    /\ snd (collectChildren rest' i indent) = snd (collectChildren rest i indent).
Proof.
  intros F; induction F as [|l l' rest rest' H F IH]; intros i indent.
  - cbn. auto.
  - destruct (crEq_facts l l' H) as (B & _ & _ & S & _).
    cbn [collectChildren]. rewrite B.
    destruct (isBlank l) eqn:Bl; [apply IH|].
    rewrite (S eq_refl).
    destruct (search_nonspace l <=? indent)%Z; [cbn; auto|].
    specialize (IH (Datatypes.S i) indent).
    destruct (collectChildren rest (Datatypes.S i) indent) as [cs j].
    destruct (collectChildren rest' (Datatypes.S i) indent) as [cs' j'].
    cbn [fst snd] in *. destruct IH as [IH1 IH2]. split; [constructor; auto|auto].
Qed.

Lemma collectChildren_noLF rest :
  forallb noLF rest = true ->
  forall i indent, forallb noLF (fst (collectChildren rest i indent)) = true.
Proof.
  induction rest as [|l rest IH]; intros N i indent; [reflexivity|].
  cbn [forallb] in N. apply andb_true_iff in N as [N1 N2].
  cbn [collectChildren].
  destruct (isBlank l); [now apply IH|].
  destruct (search_nonspace l <=? indent)%Z; [reflexivity|].
  specialize (IH N2 (Datatypes.S i) indent).
  destruct (collectChildren rest (Datatypes.S i) indent) as [cs j].
  cbn [fst forallb] in *. now rewrite N1, IH.
Qed.

Lemma forallb_skipn {A} (p : A -> bool) l n :
  forallb p l = true -> forallb p (skipn n l) = true.
Proof.
  revert n; induction l as [|x l IH]; intros [|n] H; cbn in *; auto.
  apply andb_true_iff in H as [_ H]. now apply IH.
Qed.

Lemma blockValue_cr rec rec' cs cs' :
  (forall xs xs', Forall2 crEq xs xs' -> forallb noLF xs = true ->
                  rec' (join_nl xs') = rec (join_nl xs)) ->
  Forall2 crEq cs cs' -> forallb noLF cs = true ->
  blockValue rec' cs' = blockValue rec cs.
Proof.
  intros R F N. unfold blockValue.
  destruct F as [|l l' cs cs' H F]; [now apply R|].
  destruct (crEq_facts l l' H) as (_ & _ & T & _).
  rewrite T. destruct (startsWith (jstr "- ") (trim l)).
  - do 2 f_equal. cbn [map]. rewrite T. f_equal.
    clear - F. induction F as [|x y xs ys Hxy F IH]; [reflexivity|].
    cbn [map]. destruct (crEq_facts x y Hxy) as (_ & _ & Tx & _).
    now rewrite Tx, IH.
  - apply R; [constructor; auto|assumption].
Qed.

Lemma whileLoop_cr rec rec' lines lines' :
  (forall xs xs', Forall2 crEq xs xs' -> forallb noLF xs = true ->
                  rec' (join_nl xs') = rec (join_nl xs)) ->
  Forall2 crEq lines lines' -> forallb noLF lines = true ->
  forall f i result,
    whileLoop rec' f lines' i result = whileLoop rec f lines i result.
Proof.
  intros R F N f; induction f as [|f IH]; intros i result; [reflexivity|].
  pose proof (Forall2_nth_error crEq lines lines' i F) as Nth.
  destruct (nth_error lines i) as [l|] eqn:E1;
    destruct (nth_error lines' i) as [l'|] eqn:E2; try contradiction.
  2:{ now rewrite !loop_end. }
  destruct (crEq_facts l l' Nth) as (B & LE & T & S & _).
  destruct (lineEntry l) as [[key val]|] eqn:E.
  2:{ rewrite (loop_skip rec' lines' f i result l' E2 LE).
      rewrite (loop_skip rec lines f i result l E1 E). apply IH. }
  destruct (isBlockMarker val) eqn:M.
  - pose proof (collectChildren_cr _ _ (Forall2_skipn crEq lines lines' (Datatypes.S i) F)
                  (Datatypes.S i) (search_nonspace l)) as [C1 C2].
    pose proof (collectChildren_noLF _ (forallb_skipn noLF lines (Datatypes.S i) N)
                  (Datatypes.S i) (search_nonspace l)) as CN.
    assert (Bl : isBlank l = false) by (now destruct (entry_has_key l key val E)).
    destruct (collectChildren (skipn (Datatypes.S i) lines) (Datatypes.S i) (search_nonspace l))
      as [cs j] eqn:Cc.
    destruct (collectChildren (skipn (Datatypes.S i) lines') (Datatypes.S i) (search_nonspace l))
      as [cs' j'] eqn:Cc'.
    cbn [fst snd] in *. subst j'.
    rewrite <- (S Bl) in Cc'.
    rewrite (loop_block rec' lines' f i result l' key val cs' j E2 LE M Cc').
    rewrite (loop_block rec lines f i result l key val cs j E1 E M Cc).
    rewrite (blockValue_cr rec rec' cs cs' R C1 CN).
    destruct (blockValue rec cs); [apply IH|reflexivity].
  - rewrite (loop_inline rec' lines' f i result l' key val E2 LE M).
    rewrite (loop_inline rec lines f i result l key val E1 E M).
    apply IH.
Qed.

Lemma Forall2_crEq_noLF ls ls' :
  Forall2 crEq ls ls' -> forallb noLF ls = true -> forallb noLF ls' = true.
Proof.
  intros F; induction F as [|l l' ls ls' H F IH]; [reflexivity|].
  cbn [forallb]. rewrite !andb_true_iff. intros [N1 N2]. split; [|auto].
  now apply (crEq_facts l l' H).
Qed.

(** X10.  A carriage return at the end of a line changes nothing: two
    texts whose lines differ only by such carriage returns give the same
    result, for every number of iterations allowed. *)
Theorem carriage_returns_at_line_ends_are_ignored (ls ls' : list jsstring) :
  Forall2 crEq ls ls' -> forallb noLF ls = true ->
  forall fuel, parseYamlBlock fuel (join_nl ls') = parseYamlBlock fuel (join_nl ls).
Proof.
  intros F N fuel. revert ls ls' F N.
  induction fuel as [|f IH]; intros ls ls' F N; [reflexivity|].
  cbn [parseYamlBlock].
  destruct F as [|l l' ls ls' H F]; [reflexivity|].
  assert (F' : Forall2 crEq (l :: ls) (l' :: ls')) by (constructor; assumption).
  rewrite !split_join; try discriminate; auto.
  - apply whileLoop_cr; auto.
  - eapply Forall2_crEq_noLF; eauto.
Qed.

(** The theorem above at an instance. *)
Lemma carriage_returns_at_line_ends_are_ignored_witness :
  parseYamlBlock 6 (jstr "name: x\r\nos:\r\n  - linux\r\n  - macos")
  = parseYamlBlock 6 (jstr "name: x\nos:\n  - linux\n  - macos").
Proof.
  apply (carriage_returns_at_line_ends_are_ignored
           [jstr "name: x"; jstr "os:"; jstr "  - linux"; jstr "  - macos"]
           [jstr "name: x\r"; jstr "os:\r"; jstr "  - linux\r"; jstr "  - macos"]).
  - repeat constructor; (left; reflexivity) || (right; reflexivity).
  - reflexivity.
Defined.

(* ================================================================== *)
(** ** Claim on block lists *)
(* ================================================================== *)












(* ================================================================== *)
(** ** The shape of a result *)
(* ================================================================== *)

Lemma plainShape_obj props :
  plainShape (VObj props None) =
  forallb (fun p => isKey (fst p) && plainShape (snd p)) props.
Proof.
  cbn [plainShape].
  induction props as [|[k x] r IH]; [reflexivity|]. cbn [forallb fst snd]. now rewrite IH.
Qed.

Lemma plainShape_put k v props :
  isKey k = true -> plainShape v = true -> plainShape (VObj props None) = true ->
  plainShape (VObj (put k v props) None) = true.
Proof.
  rewrite !plainShape_obj. intros K V.
  induction props as [|[k' v'] r IH]; cbn [put forallb fst snd].
  - now rewrite K, V.
  - intros H; apply andb_true_iff in H as [H1 H2].
    destruct (str_eqb k k') eqn:E; cbn [forallb fst snd].
    + apply andb_true_iff in H1 as [H1 _]. now rewrite H1, V, H2.
    + now rewrite H1, IH.
Qed.

Lemma collectChildren_forallb (p : jsstring -> bool) rest :
  forallb p rest = true ->
  forall i indent, forallb p (fst (collectChildren rest i indent)) = true.
Proof.
  induction rest as [|l rest IH]; intros N i indent; [reflexivity|].
  cbn [forallb] in N. apply andb_true_iff in N as [N1 N2].
  cbn [collectChildren].
  destruct (isBlank l); [now apply IH|].
  destruct (search_nonspace l <=? indent)%Z; [reflexivity|].
  specialize (IH N2 (S i) indent).
  destruct (collectChildren rest (S i) indent) as [cs j].
  cbn [fst forallb] in *. now rewrite N1, IH.
Qed.

Lemma split_join_forallb (p : jsstring -> bool) children :
  p [] = true -> forallb noLF children = true -> forallb p children = true ->
  forallb p (split_nl (join_nl children)) = true.
Proof.
  intros E N P. destruct children as [|c r]; [cbn; now rewrite E|].
  rewrite split_join; [assumption|discriminate|assumption].
Qed.

Lemma whileLoop_plain rec lines :
  (forall t w, rec t = Some w -> forallb (keyIsNot PROTO) (split_nl t) = true ->
               plainShape w = true) ->
  forallb (keyIsNot PROTO) lines = true -> forallb noLF lines = true ->
  forall f i props v,
    plainShape (VObj props None) = true ->
    whileLoop rec f lines i (VObj props None) = Some v -> plainShape v = true.
Proof.
  intros R P N f; induction f as [|f IH]; intros i props v U H; [discriminate|].
  destruct (nth_error lines i) as [line|] eqn:Nth.
  2:{ rewrite loop_end in H by assumption. inversion H; subst; assumption. }
  destruct (lineEntry line) as [[key val]|] eqn:E.
  2:{ rewrite (loop_skip rec lines f i _ line Nth E) in H. eapply IH; eauto. }
  destruct (entry_has_key line key val E) as [K _].
  assert (NP : key <> PROTO).
  { rewrite forallb_forall in P. specialize (P line (nth_error_In _ _ Nth)).
    unfold keyIsNot in P. rewrite E in P.
    apply negb_true_iff in P. now apply str_eqb_neq. }
  destruct (isBlockMarker val) eqn:B.
  - pose proof (collectChildren_forallb (keyIsNot PROTO) _
                  (forallb_skipn _ lines (S i) P) (S i) (search_nonspace line)) as CP.
    pose proof (collectChildren_forallb noLF _
                  (forallb_skipn _ lines (S i) N) (S i) (search_nonspace line)) as CN.
    destruct (collectChildren (skipn (S i) lines) (S i) (search_nonspace line))
      as [children j] eqn:C.
    cbn [fst] in CP, CN.
    rewrite (loop_block rec lines f i _ line key val children j Nth E B C) in H.
    destruct (blockValue rec children) as [x|] eqn:Bv; [|discriminate].
    assert (Sx : plainShape x = true).
    { assert (Rc : forall w, rec (join_nl children) = Some w -> plainShape w = true).
      { intros w Hw. apply (R _ _ Hw). now apply split_join_forallb. }
      unfold blockValue in Bv. destruct children as [|first rest]; [auto|].
      destruct (startsWith (jstr "- ") (trim first)); [|auto].
      inversion Bv. cbn [plainShape].
      apply forallb_map_impl with (p := fun _ => true); [reflexivity|].
      apply forallb_forall; reflexivity. }
    rewrite ob_set_plain in H by assumption.
    eapply IH; [|exact H]. now apply plainShape_put.
  - destruct (isObjectValue (inlineValue val) || isArrayValue (inlineValue val)) eqn:O.
    + rewrite (loop_stalls rec lines i line key val Nth E B NP O (S f) props None) in H.
      discriminate.
    + rewrite (loop_inline rec lines f i _ line key val Nth E B) in H.
      rewrite ob_set_plain in H by assumption.
      eapply IH; [|exact H]. apply plainShape_put; auto.
      destruct (inlineValue_cases val) as [[s I]|[[b I]|(j & _ & I & _ & Oj)]];
        rewrite I in *; try reflexivity. rewrite Oj in O; discriminate.
Qed.

(** X9.  When no line of a text is an entry with the key [__proto__],
    whatever [parseYamlBlock] returns is a mapping with the built-in
    prototype whose keys are keys of the key pattern and whose values are
    strings, booleans, lists of strings and such mappings again: no
    number, no [null] and no object or array built by [JSON.parse] is in
    it or behind it. *)
Theorem result_without_proto_key_holds_no_json_value
  (fuel : nat) (text : jsstring) (v : value) :
  parseYamlBlock fuel text = Some v ->
  forallb (keyIsNot PROTO) (split_nl text) = true ->
  plainShape v = true.
Proof.
  revert text v; induction fuel as [|f IH]; intros text v H P; [discriminate|].
  cbn [parseYamlBlock] in H. unfold emptyObject in H.
  exact (whileLoop_plain (parseYamlBlock f) (split_nl text) IH P (split_nl_noLF text)
           f 0 [] v eq_refl H).
Qed.

(** The theorem above at an instance. *)
Lemma result_without_proto_key_holds_no_json_value_witness :
  plainShape (VObj [(jstr "a", VObj [(jstr "b", VBool true)] None);
                    (jstr "c", VArr [VStr (jstr "x")]);
                    (jstr "d", VStr (jstr "{x"))] None) = true.
Proof.
  apply (result_without_proto_key_holds_no_json_value 6
           (jstr "a:\n  b: true\nc:\n  - x\nd: {x\n")).
  - vm_compute; reflexivity.
  - vm_compute; reflexivity.
Defined.
